(** * Mesh normalization, quantization and reconstruction error

    A shallow embedding of [scripts/mesh_preprocess.py].

    Numbers.  The main development is the exact-arithmetic reading of the
    script.  A NumPy [float64] is an extended real: a finite value carries
    a real number and arithmetic on finite values is exact (no rounding,
    no overflow); the special values [inf], [-inf] and [nan] are kept,
    because the script can produce them by dividing by zero.  Zero is
    unsigned (it behaves as [+0.0]).  A NumPy [int64] is an integer of [Z]
    without overflow; a statement that would depend on the int64 range
    carries that range as a condition ([castable]).  What is proved here
    is therefore proved of the script up to rounding and overflow.

    The module [Binary64] evaluates the same functions in IEEE binary64
    with an int64 cast that is defined on the int64 range only; it shows,
    on concrete buffers, where rounding and overflow make the script
    differ from the exact reading.

    Arrays.  An [(N,3)] array is a list of triples, a [(3,)] array is a
    triple; NumPy broadcasting is written out where the script relies on
    it. *)

From Stdlib Require Import Reals ZArith List Lra Lia String Bool SpecFloat.
Import ListNotations.

#[local] Open Scope R_scope.

(** ** float64 values *)

Inductive float64 : Type :=
| Fin (x : R)
| PInf
| NInf
| NaN.

Definition Rsign (x : R) : comparison :=
  if Rlt_dec 0 x then Gt else if Rlt_dec x 0 then Lt else Eq.

(** The result of [x / 0] and of [x * inf], by the sign of [x]. *)
Definition signed_inf (s : comparison) : float64 :=
  match s with
  | Gt => PInf
  | Lt => NInf
  | Eq => NaN
  end.

Definition fneg (a : float64) : float64 :=
  match a with
  | Fin x => Fin (- x)
  | PInf => NInf
  | NInf => PInf
  | NaN => NaN
  end.

Definition fadd (a b : float64) : float64 :=
  match a, b with
  | NaN, _ | _, NaN => NaN
  | Fin x, Fin y => Fin (x + y)
  | PInf, NInf | NInf, PInf => NaN
  | PInf, _ | _, PInf => PInf
  | NInf, _ | _, NInf => NInf
  end.

Definition fsub (a b : float64) : float64 := fadd a (fneg b).

Definition fmul (a b : float64) : float64 :=
  match a, b with
  | NaN, _ | _, NaN => NaN
  | Fin x, Fin y => Fin (x * y)
  | Fin x, PInf | PInf, Fin x => signed_inf (Rsign x)
  | Fin x, NInf | NInf, Fin x => signed_inf (CompOpp (Rsign x))
  | PInf, PInf | NInf, NInf => PInf
  | PInf, NInf | NInf, PInf => NInf
  end.

Definition fdiv (a b : float64) : float64 :=
  match a, b with
  | NaN, _ | _, NaN => NaN
  | Fin x, Fin y => if Req_EM_T y 0 then signed_inf (Rsign x) else Fin (x / y)
  | Fin _, PInf | Fin _, NInf => Fin 0
  | PInf, Fin y => if Rlt_dec y 0 then NInf else PInf
  | NInf, Fin y => if Rlt_dec y 0 then PInf else NInf
  | PInf, PInf | PInf, NInf | NInf, PInf | NInf, NInf => NaN
  end.

Definition fabs (a : float64) : float64 :=
  match a with
  | Fin x => Fin (Rabs x)
  | PInf | NInf => PInf
  | NaN => NaN
  end.

Definition fsqrt (a : float64) : float64 :=
  match a with
  | Fin x => if Rlt_dec x 0 then NaN else Fin (sqrt x)
  | PInf => PInf
  | NInf | NaN => NaN
  end.

(** [np.minimum] and [np.maximum]: a [nan] operand gives [nan]. *)
Definition fmin (a b : float64) : float64 :=
  match a, b with
  | NaN, _ | _, NaN => NaN
  | NInf, _ | _, NInf => NInf
  | PInf, c | c, PInf => c
  | Fin x, Fin y => Fin (Rmin x y)
  end.

Definition fmax (a b : float64) : float64 :=
  match a, b with
  | NaN, _ | _, NaN => NaN
  | PInf, _ | _, PInf => PInf
  | NInf, c | c, NInf => c
  | Fin x, Fin y => Fin (Rmax x y)
  end.

(** [a == 0] *)
Definition feq0 (a : float64) : bool :=
  match a with
  | Fin x => if Req_EM_T x 0 then true else false
  | _ => false
  end.

(** [np.floor] *)
Definition np_floor (a : float64) : float64 :=
  match a with
  | Fin x => Fin (IZR (Zfloor x))
  | _ => a
  end.

(** Rounding toward zero, as a C cast from double to integer does. *)
Definition Ztrunc (x : R) : Z :=
  if Rlt_dec x 0 then Zceil x else Zfloor x.

(** A Python [int] used as a float operand. *)
Definition of_int (z : Z) : float64 := Fin (IZR z).

(** [np.clip(q, lo, hi)] is [minimum(maximum(q, lo), hi)]. *)
Definition np_clip (q lo hi : Z) : Z := Z.min (Z.max q lo) hi.

(** ** Arrays of shape (3,) and (N,3) *)

Definition vec3 (A : Type) : Type := (A * A * A)%type.

Inductive axis : Type := AxX | AxY | AxZ.

Definition get {A : Type} (a : axis) (v : vec3 A) : A :=
  match a, v with
  | AxX, (x, _, _) => x
  | AxY, (_, y, _) => y
  | AxZ, (_, _, z) => z
  end.

Definition v3map {A B : Type} (f : A -> B) (v : vec3 A) : vec3 B :=
  let '(x, y, z) := v in (f x, f y, f z).

Definition v3map2 {A B C : Type} (f : A -> B -> C) (u : vec3 A) (v : vec3 B)
  : vec3 C :=
  let '(x, y, z) := u in
  let '(x', y', z') := v in (f x x', f y y', f z z').

(** A relation that holds on each of the three components. *)
Definition v3rel {A B : Type} (P : A -> B -> Prop) (u : vec3 A) (v : vec3 B)
  : Prop :=
  forall a, P (get a u) (get a v).

Definition fvec : Type := vec3 float64.
Definition farray : Type := list fvec.
Definition iarray : Type := list (vec3 Z).

(** Exceptions the modelled functions can raise. *)
Inductive exn : Type :=
| ValueError
| KeyError.

Inductive result (A : Type) : Type :=
| Ok (a : A)
| Raise (e : exn).
Arguments Ok {A} a.
Arguments Raise {A} e.

Definition bind {A B : Type} (r : result A) (k : A -> result B) : result B :=
  match r with
  | Ok a => k a
  | Raise e => Raise e
  end.

Notation "x <- r ;; k" := (bind r (fun x => k))
  (at level 61, r at next level, right associativity).

(** Elementwise operation of an (N,3) array with a (3,) array, the row
    being broadcast over the first dimension. *)
Definition arr_row (f : float64 -> float64 -> float64) (a : farray) (r : fvec)
  : farray :=
  map (fun v => v3map2 f v r) a.

(** Elementwise operation of an (N,3) array with a scalar. *)
Definition arr_scalar (f : float64 -> float64 -> float64) (a : farray)
  (s : float64) : farray :=
  map (v3map (fun x => f x s)) a.

(** A reduction along axis 0 with no identity: [a.min(axis=0)] and
    [a.max(axis=0)] raise ValueError on a zero-size array. *)
Definition reduce0 (f : float64 -> float64 -> float64) (a : farray)
  : result fvec :=
  match a with
  | [] => Raise ValueError
  | v :: rest => Ok (fold_left (v3map2 f) rest v)
  end.

Definition arr_min0 : farray -> result fvec := reduce0 fmin.
Definition arr_max0 : farray -> result fvec := reduce0 fmax.

(** [a.sum(axis=0)] starts from zero. *)
Definition arr_sum0 (a : farray) : fvec :=
  fold_left (v3map2 fadd) a (Fin 0, Fin 0, Fin 0).

(** [a.shape[0]] as a float operand. *)
Definition count (a : farray) : float64 := Fin (INR (List.length a)).

(** [a.mean(axis=0)]: the sum over the count; on a zero-size array this is
    0/0, that is [nan] (NumPy warns and does not raise). *)
Definition arr_mean0 (a : farray) : fvec :=
  v3map (fun s => fdiv s (count a)) (arr_sum0 a).

(** [np.mean] of a (3,) array. *)
Definition vec_mean (v : fvec) : float64 :=
  let '(x, y, z) := v in fdiv (fadd (fadd (fadd (Fin 0) x) y) z) (Fin 3).

(** ** Normalization *)

Inductive meta : Type :=
| MinMaxMeta (vmin vmax : fvec)
| SphereMeta (centroid : fvec) (maxd : float64).

(** [denom[denom == 0] = 1.0] *)
Definition fix_zero (d : float64) : float64 :=
  if feq0 d then Fin 1 else d.

Definition normalize_minmax (vertices : farray) : result (farray * meta) :=
  vmin <- arr_min0 vertices ;;
  vmax <- arr_max0 vertices ;;
  let denom := v3map2 fsub vmax vmin in
  let denom := v3map fix_zero denom in
  let normalized := arr_row fdiv (arr_row fsub vertices vmin) denom in
  Ok (normalized, MinMaxMeta vmin vmax).

Definition denormalize_minmax (normalized : farray) (m : meta)
  : result farray :=
  match m with
  | MinMaxMeta vmin vmax =>
      Ok (arr_row fadd (arr_row fmul normalized (v3map2 fsub vmax vmin)) vmin)
  | SphereMeta _ _ => Raise KeyError
  end.

(** [np.linalg.norm(a, axis=1)] *)
Definition row_norm (v : fvec) : float64 :=
  let '(x, y, z) := v in
  fsqrt (fadd (fadd (fmul x x) (fmul y y)) (fmul z z)).

(** [dists.max()] of an (N,) array: ValueError on a zero-size array. *)
Definition list_max (l : list float64) : result float64 :=
  match l with
  | [] => Raise ValueError
  | d :: rest => Ok (fold_left fmax rest d)
  end.

Definition normalize_unit_sphere (vertices : farray) : result (farray * meta) :=
  let centroid := arr_mean0 vertices in
  let shifted := arr_row fsub vertices centroid in
  let dists := map row_norm shifted in
  maxd <- list_max dists ;;
  let maxd := if feq0 maxd then Fin 1 else maxd in
  let unit := arr_scalar fdiv shifted maxd in
  let normalized := arr_scalar fdiv (arr_scalar fadd unit (Fin 1)) (Fin 2) in
  Ok (normalized, SphereMeta centroid maxd).

Definition denormalize_unit_sphere (normalized : farray) (m : meta)
  : result farray :=
  match m with
  | SphereMeta centroid maxd =>
      let unit := arr_scalar fsub (arr_scalar fmul normalized (Fin 2)) (Fin 1) in
      Ok (arr_row fadd (arr_scalar fmul unit maxd) centroid)
  | MinMaxMeta _ _ => Raise KeyError
  end.

(** ** Quantization *)

Section Quantizer.

(** NumPy leaves the result of casting [nan] or an infinity to an integer
    type to the platform; the model takes it as a parameter. *)
Variable cast_invalid : Z.

(** [a.astype(np.int64)] *)
Definition astype_int64 (a : float64) : Z :=
  match a with
  | Fin x => Ztrunc x
  | _ => cast_invalid
  end.

Definition quantize (normalized : farray) (bins : Z) : iarray :=
  let n := bins in
  let q :=
    map (v3map astype_int64)
      (map (v3map np_floor) (arr_scalar fmul normalized (of_int (n - 1)))) in
  let q := map (v3map (fun c => np_clip c 0 (n - 1))) q in
  q.

End Quantizer.

(** [q.astype(np.float64)] is exact on the modelled integers. *)
Definition astype_float64 (z : Z) : float64 := Fin (IZR z).

Definition dequantize (q : iarray) (bins : Z) : farray :=
  let n := bins in
  arr_scalar fdiv (map (v3map astype_float64) q) (of_int (n - 1)).

(** ** Error analysis *)

Record report : Type := mkReport {
  mse_per_axis : fvec;
  mae_per_axis : fvec;
  mse : float64;
  mae : float64
}.

(** Elementwise operation of two (N,3) and (M,3) arrays under NumPy's
    broadcasting rule: the first dimensions must be equal, or one of them
    must be 1 and is then stretched; otherwise ValueError. *)
Definition broadcast2 (f : float64 -> float64 -> float64) (a b : farray)
  : result farray :=
  if Nat.eqb (List.length a) (List.length b)
  then Ok (map (fun p => v3map2 f (fst p) (snd p)) (combine a b))
  else
    match a, b with
    | [u], _ => Ok (map (fun v => v3map2 f u v) b)
    | _, [v] => Ok (arr_row f a v)
    | _, _ => Raise ValueError
    end.

(** [a ** 2] *)
Definition fsquare (x : float64) : float64 := fmul x x.

Definition compute_errors (original reconstructed : farray) : result report :=
  diff <- broadcast2 fsub original reconstructed ;;
  let mse_per_axis := arr_mean0 (map (v3map fsquare) diff) in
  let mae_per_axis := arr_mean0 (map (v3map fabs) diff) in
  let mse := vec_mean mse_per_axis in
  let mae := vec_mean mae_per_axis in
  Ok (mkReport mse_per_axis mae_per_axis mse mae).

(** ** The per-mesh pipeline *)

Record stats : Type := mkStats {
  n_vertices : nat;
  stat_min : fvec;
  stat_max : fvec;
  stat_mean : fvec;
  stat_std : fvec
}.

(** [a.std(axis=0)]: the root of the mean squared deviation. *)
Definition arr_std0 (a : farray) : fvec :=
  let dev := arr_row fsub a (arr_mean0 a) in
  v3map fsqrt (arr_mean0 (map (v3map (fun d => fsquare (fabs d))) dev)).

Definition mesh_stats (vertices : farray) : result stats :=
  vmin <- arr_min0 vertices ;;
  vmax <- arr_max0 vertices ;;
  Ok (mkStats (List.length vertices) vmin vmax
        (arr_mean0 vertices) (arr_std0 vertices)).

(** What [trimesh.load] hands over: the library's own [is_empty] flag
    (taken as given, not derived from the vertex array), the vertex array
    and the faces, which the pipeline only passes on. *)
Record mesh : Type := mkMesh {
  is_empty : bool;
  mesh_vertices : farray;
  mesh_faces : option (list (list Z))
}.

(** What one method leaves behind for a mesh: the quantized array, the
    reconstructed vertices, the error report and the metadata. *)
Record method_output : Type := mkOutput {
  out_quant : iarray;
  out_recon : farray;
  out_errors : report;
  out_meta : meta
}.

Definition normalize_fn : Type := farray -> result (farray * meta).
Definition denormalize_fn : Type := farray -> meta -> result farray.

Definition methods : list (string * normalize_fn * denormalize_fn) :=
  [ ("minmax"%string, normalize_minmax, denormalize_minmax);
    ("unit_sphere"%string, normalize_unit_sphere, denormalize_unit_sphere) ].

(** The outcome of [process_mesh]: the mesh was skipped, or each method ran
    inside its own [try]; an exception there is caught, printed and kept
    here as [Raise]. *)
Inductive processed : Type :=
| Skipped
| Processed (st : stats) (runs : list (string * result method_output)).

Section Pipeline.

Variable cast_invalid : Z.

(** The numeric steps of the body of the [try] block, in the order of
    the source.  The file writes and the plots that follow them inside the
    [try] are not modelled: [Ok] means that these steps returned, not that
    the whole body ran to its end. *)
Definition run_method (normalize : normalize_fn) (denormalize : denormalize_fn)
  (vertices : farray) (bins : Z) : result method_output :=
  nm <- normalize vertices ;;
  let normalized := fst nm in
  let meta := snd nm in
  let quant := quantize cast_invalid normalized bins in
  let deq := dequantize quant bins in
  recon <- denormalize deq meta ;;
  errors <- compute_errors vertices recon ;;
  Ok (mkOutput quant recon errors meta).

(** [process_mesh] from the loaded mesh on: [trimesh.load] and the
    conversion of [mesh.vertices], which come first in the source and can
    raise, are not modelled.  [mesh_stats] is called outside the [try]:
    what it raises leaves [process_mesh]. *)
Definition process_mesh (m : mesh) (bins : Z) : result processed :=
  if is_empty m then Ok Skipped
  else
    let vertices := mesh_vertices m in
    st <- mesh_stats vertices ;;
    Ok (Processed st
          (map (fun mt =>
                  let '(method_name, normalize, denormalize) := mt in
                  (method_name, run_method normalize denormalize vertices bins))
               methods)).

End Pipeline.

(** ** Finite buffers *)

(** A vertex buffer of finite coordinates, as real triples. *)
Definition rvec : Type := vec3 R.
Definition rarray : Type := list rvec.

Definition Fvec (v : rvec) : fvec := v3map Fin v.
Definition Farr (a : rarray) : farray := map Fvec a.


(** Every coordinate of the buffer lies in [[0,1]]. *)
Definition in_unit (a : rarray) : Prop :=
  Forall (fun v => forall ax, 0 <= get ax v <= 1) a.



(** The sum of a list of reals and the mean of a non-empty one. *)
Definition Rsum (l : list R) : R := fold_right Rplus 0 l.
Definition Rmean (l : list R) : R := Rsum l / INR (List.length l).

(** Column [ax] of the difference of two real buffers of the same length. *)
Definition diff_col (ax : axis) (o r : rarray) : list R :=
  map (fun p => get ax (fst p) - get ax (snd p)) (combine o r).

(** One component through [quantize] and one through [dequantize]. *)
Definition quantize_comp (cast_invalid : Z) (bins : Z) (x : float64) : Z :=
  np_clip (astype_int64 cast_invalid (np_floor (fmul x (of_int (bins - 1)))))
    0 (bins - 1).

Definition dequantize_comp (bins : Z) (q : Z) : float64 :=
  fdiv (astype_float64 q) (of_int (bins - 1)).

Definition is_finite (a : float64) : Prop :=
  match a with
  | Fin _ => True
  | _ => False
  end.

(** The error formulas on real buffers of the same length: the mean over
    the vertices of the squared, respectively absolute, differences on one
    axis. *)
Definition mse_axis (ax : axis) (o r : rarray) : R :=
  Rmean (map (fun d => d * d) (diff_col ax o r)).

Definition mae_axis (ax : axis) (o r : rarray) : R :=
  Rmean (map Rabs (diff_col ax o r)).

(** Real counterparts of the array operations, used to describe what the
    functions return on finite buffers. *)
Definition rfix_zero (d : R) : R := if Req_EM_T d 0 then 1 else d.

Definition rsum0 (a : rarray) : rvec :=
  (Rsum (map (get AxX) a), Rsum (map (get AxY) a), Rsum (map (get AxZ) a)).

Definition rmean0 (a : rarray) : rvec :=
  v3map (fun s => s / INR (List.length a)) (rsum0 a).

Definition rnorm (v : rvec) : R :=
  let '(x, y, z) := v in sqrt (x * x + y * y + z * z).

(** A finite value of [[0,1]]. *)
Definition funit (a : float64) : Prop :=
  match a with
  | Fin x => 0 <= x <= 1
  | _ => False
  end.

(** One finite component through [quantize], and through [quantize] and
    [dequantize] in turn. *)
Definition rquant (bins : Z) (x : R) : Z :=
  np_clip (Zfloor (x * IZR (bins - 1))) 0 (bins - 1).

Definition rcodec (bins : Z) (x : R) : R :=
  IZR (rquant bins x) / IZR (bins - 1).

(** The value [nan] in every field of a report. *)
Definition nan_report : report :=
  mkReport (NaN, NaN, NaN) (NaN, NaN, NaN) NaN NaN.

(** The order of finite values. *)
Definition fle (a b : float64) : Prop :=
  match a, b with
  | Fin x, Fin y => x <= y
  | _, _ => False
  end.

(** [-a] on each component of an (N,3) array. *)
Definition arr_neg (a : farray) : farray := map (v3map fneg) a.

(** ** The same functions in IEEE binary64

    The definitions above compute with exact reals and unbounded integers.
    This module runs the same source functions with the arithmetic NumPy
    uses: binary64 with round-to-nearest-even, as specified by the
    standard library's [SpecFloat], and a cast to int64 that is defined on
    the int64 range only.  It is used to evaluate the functions on
    concrete buffers, where rounding or overflow shows. *)

Module Binary64.

Definition prec : Z := 53.
Definition emax : Z := 1024.

Definition b64 : Type := spec_float.
Definition bvec : Type := vec3 b64.
Definition barray : Type := list bvec.

Definition add : b64 -> b64 -> b64 := SFadd prec emax.
Definition sub : b64 -> b64 -> b64 := SFsub prec emax.
Definition mul : b64 -> b64 -> b64 := SFmul prec emax.
Definition div : b64 -> b64 -> b64 := SFdiv prec emax.
Definition sqrt : b64 -> b64 := SFsqrt prec emax.

(** A Python [int], or an int64, converted to float64. *)
Definition of_int (z : Z) : b64 := binary_normalize prec emax z 0 false.

Definition zero : b64 := S754_zero false.
Definition one : b64 := of_int 1.
Definition two : b64 := of_int 2.

Definition is_nan (a : b64) : bool :=
  match a with
  | S754_nan => true
  | _ => false
  end.

(** [np.minimum] and [np.maximum]: a [nan] operand gives [nan]. *)
Definition minimum (a b : b64) : b64 :=
  if is_nan a || is_nan b then S754_nan
  else if SFltb b a then b else a.

Definition maximum (a b : b64) : b64 :=
  if is_nan a || is_nan b then S754_nan
  else if SFltb a b then b else a.

(** [a == 0] *)
Definition eq0 (a : b64) : bool := SFeqb a zero.

(** [np.floor]: a finite value with a non-negative exponent is an integer
    already; otherwise the mantissa is shifted down, rounding toward minus
    infinity, and the integer obtained is exactly representable. *)
Definition floor (a : b64) : b64 :=
  match a with
  | S754_finite s m e =>
      if (0 <=? e)%Z then a
      else binary_normalize prec emax
             (Z.shiftr (cond_Zopp s (Zpos m)) (- e)) 0 s
  | _ => a
  end.

(** The integer a finite value is truncated to, toward zero. *)
Definition truncate (s : bool) (m : positive) (e : Z) : Z :=
  if (0 <=? e)%Z then cond_Zopp s (Zpos m * 2 ^ e)
  else cond_Zopp s (Z.shiftr (Zpos m) (- e)).

Definition int64_min : Z := - 2 ^ 63.
Definition int64_max : Z := 2 ^ 63 - 1.

(** [a.astype(np.int64)]: defined when the truncated value is an int64;
    for the other values, [nan] and the infinities NumPy returns what the
    platform's conversion gives ([int64_min] on x86-64), here
    [cast_invalid]. *)
Definition astype_int64 (cast_invalid : Z) (a : b64) : Z :=
  match a with
  | S754_zero _ => 0
  | S754_finite s m e =>
      let z := truncate s m e in
      if ((int64_min <=? z) && (z <=? int64_max))%Z then z else cast_invalid
  | _ => cast_invalid
  end.

Definition arr_row (f : b64 -> b64 -> b64) (a : barray) (r : bvec) : barray :=
  map (fun v => v3map2 f v r) a.

Definition arr_scalar (f : b64 -> b64 -> b64) (a : barray) (s : b64)
  : barray :=
  map (v3map (fun x => f x s)) a.

Definition reduce0 (f : b64 -> b64 -> b64) (a : barray) : result bvec :=
  match a with
  | [] => Raise ValueError
  | v :: rest => Ok (fold_left (v3map2 f) rest v)
  end.

Definition arr_sum0 (a : barray) : bvec :=
  fold_left (v3map2 add) a (zero, zero, zero).

Definition count (a : barray) : b64 := of_int (Z.of_nat (List.length a)).

Definition arr_mean0 (a : barray) : bvec :=
  v3map (fun s => div s (count a)) (arr_sum0 a).

Inductive meta : Type :=
| MinMaxMeta (vmin vmax : bvec)
| SphereMeta (centroid : bvec) (maxd : b64).

Definition fix_zero (d : b64) : b64 := if eq0 d then one else d.

Definition normalize_minmax (vertices : barray) : result (barray * meta) :=
  vmin <- reduce0 minimum vertices ;;
  vmax <- reduce0 maximum vertices ;;
  let denom := v3map2 sub vmax vmin in
  let denom := v3map fix_zero denom in
  let normalized := arr_row div (arr_row sub vertices vmin) denom in
  Ok (normalized, MinMaxMeta vmin vmax).

Definition denormalize_minmax (normalized : barray) (m : meta)
  : result barray :=
  match m with
  | MinMaxMeta vmin vmax =>
      Ok (arr_row add (arr_row mul normalized (v3map2 sub vmax vmin)) vmin)
  | SphereMeta _ _ => Raise KeyError
  end.

Definition row_norm (v : bvec) : b64 :=
  let '(x, y, z) := v in sqrt (add (add (mul x x) (mul y y)) (mul z z)).

Definition list_max (l : list b64) : result b64 :=
  match l with
  | [] => Raise ValueError
  | d :: rest => Ok (fold_left maximum rest d)
  end.

Definition normalize_unit_sphere (vertices : barray)
  : result (barray * meta) :=
  let centroid := arr_mean0 vertices in
  let shifted := arr_row sub vertices centroid in
  let dists := map row_norm shifted in
  maxd <- list_max dists ;;
  let maxd := if eq0 maxd then one else maxd in
  let unit := arr_scalar div shifted maxd in
  let normalized := arr_scalar div (arr_scalar add unit one) two in
  Ok (normalized, SphereMeta centroid maxd).

Definition denormalize_unit_sphere (normalized : barray) (m : meta)
  : result barray :=
  match m with
  | SphereMeta centroid maxd =>
      let unit := arr_scalar sub (arr_scalar mul normalized two) one in
      Ok (arr_row add (arr_scalar mul unit maxd) centroid)
  | MinMaxMeta _ _ => Raise KeyError
  end.

Definition quantize (cast_invalid : Z) (normalized : barray) (bins : Z)
  : iarray :=
  let n := bins in
  let q :=
    map (v3map (astype_int64 cast_invalid))
      (map (v3map floor) (arr_scalar mul normalized (of_int (n - 1)))) in
  let q := map (v3map (fun c => np_clip c 0 (n - 1))) q in
  q.

Definition dequantize (q : iarray) (bins : Z) : barray :=
  let n := bins in
  arr_scalar div (map (v3map of_int) q) (of_int (n - 1)).

(** The inverse applied to what the forward transform returns. *)
Definition round_trip
  (normalize : barray -> result (barray * meta))
  (denormalize : barray -> meta -> result barray)
  (vertices : barray) : result barray :=
  nm <- normalize vertices ;;
  denormalize (fst nm) (snd nm).

(** The exact value of a finite float, as an integer mantissa and a binary
    exponent. *)
Definition exact (a : b64) : option (Z * Z) :=
  match a with
  | S754_zero _ => Some (0, 0)%Z
  | S754_finite s m e => Some (cond_Zopp s (Zpos m), e)
  | _ => None
  end.

(** [y] is finite and within the relative tolerance [num / den] of the
    finite value [x], decided on the exact values:
    [|y - x| <= (num / den) * |x|]. *)
Definition rel_close (num den : Z) (x y : b64) : bool :=
  match exact x, exact y with
  | Some (mx, ex), Some (my, ey) =>
      let e0 := Z.min ex ey in
      let x' := (mx * 2 ^ (ex - e0))%Z in
      let y' := (my * 2 ^ (ey - e0))%Z in
      (Z.abs (y' - x') * den <=? num * Z.abs x')%Z
  | _, _ => false
  end.

End Binary64.

(** The values an int64 can hold. *)
Definition int64_range (z : Z) : Prop := (- 2 ^ 63 <= z < 2 ^ 63)%Z.

(** Every scaled component of the buffer has its floor in the int64 range,
    so that the cast in [quantize] is defined. *)
Definition castable (bins : Z) (a : rarray) : Prop :=
  Forall (fun v => forall ax,
              int64_range (Zfloor (get ax v * IZR (bins - 1)))) a.

(** * Properties *)

(** ** Arithmetic on finite values *)

Lemma fdiv_fin (x y : R) : y <> 0 -> fdiv (Fin x) (Fin y) = Fin (x / y).
Proof.
  intros Hy. simpl. destruct (Req_EM_T y 0) as [E | _]; [contradiction | reflexivity].
Qed.

Lemma fdiv_zero_zero : fdiv (Fin 0) (Fin 0) = NaN.
Proof.
  simpl. destruct (Req_EM_T 0 0) as [_ | N]; [| now elim N].
  unfold Rsign. destruct (Rlt_dec 0 0) as [H | _]; [lra |].
  reflexivity.
Qed.

Lemma fdiv_pos_zero (x : R) : 0 < x -> fdiv (Fin x) (Fin 0) = PInf.
Proof.
  intros Hx. simpl. destruct (Req_EM_T 0 0) as [_ | N]; [| now elim N].
  unfold Rsign. destruct (Rlt_dec 0 x) as [_ | H]; [reflexivity | contradiction].
Qed.

Lemma fdiv_neg_zero (x : R) : x < 0 -> fdiv (Fin x) (Fin 0) = NInf.
Proof.
  intros Hx. simpl. destruct (Req_EM_T 0 0) as [_ | N]; [| now elim N].
  unfold Rsign. destruct (Rlt_dec 0 x) as [H | _]; [lra |].
  destruct (Rlt_dec x 0) as [_ | H]; [reflexivity | contradiction].
Qed.

Lemma feq0_fin (x : R) : feq0 (Fin x) = true <-> x = 0.
Proof.
  simpl. destruct (Req_EM_T x 0); split; intros; congruence.
Qed.

Lemma fix_zero_fin (x : R) :
  fix_zero (Fin x) = Fin (if Req_EM_T x 0 then 1 else x).
Proof.
  unfold fix_zero. simpl. now destruct (Req_EM_T x 0).
Qed.

Lemma Ztrunc_IZR (z : Z) : Ztrunc (IZR z) = z.
Proof.
  unfold Ztrunc. destruct (Rlt_dec (IZR z) 0).
  - apply Zceil_eq. lra.
  - apply ZfloorZ.
Qed.

(** Casting a floored finite value is exact. *)
Lemma astype_floor (c : Z) (x : R) :
  astype_int64 c (np_floor (Fin x)) = Zfloor x.
Proof. simpl. apply Ztrunc_IZR. Qed.

Lemma np_clip_range (q hi : Z) : (0 <= hi)%Z -> (0 <= np_clip q 0 hi <= hi)%Z.
Proof. unfold np_clip. lia. Qed.

Lemma np_clip_id (q hi : Z) : (0 <= q <= hi)%Z -> np_clip q 0 hi = q.
Proof. unfold np_clip. lia. Qed.


Lemma v3map_map {A B C : Type} (f : A -> B) (g : B -> C) (v : vec3 A) :
  v3map g (v3map f v) = v3map (fun x => g (f x)) v.
Proof. now destruct v as [[x y] z]. Qed.

Lemma v3map_ext {A B : Type} (f g : A -> B) (v : vec3 A) :
  (forall a, f (get a v) = g (get a v)) -> v3map f v = v3map g v.
Proof.
  destruct v as [[x y] z]. intros H.
  generalize (H AxX), (H AxY), (H AxZ). simpl. congruence.
Qed.

Lemma v3map_id {A : Type} (f : A -> A) (v : vec3 A) :
  (forall a, f (get a v) = get a v) -> v3map f v = v.
Proof.
  destruct v as [[x y] z]. intros H.
  generalize (H AxX), (H AxY), (H AxZ). simpl. congruence.
Qed.

Lemma get_v3map {A B : Type} (f : A -> B) (a : axis) (v : vec3 A) :
  get a (v3map f v) = f (get a v).
Proof. now destruct v as [[x y] z], a. Qed.

Lemma get_v3map2 {A B C : Type} (f : A -> B -> C) (a : axis)
  (u : vec3 A) (v : vec3 B) :
  get a (v3map2 f u v) = f (get a u) (get a v).
Proof. now destruct u as [[x y] z], v as [[x' y'] z'], a. Qed.

Lemma vec3_ext {A : Type} (u v : vec3 A) :
  (forall a, get a u = get a v) -> u = v.
Proof.
  destruct u as [[x y] z], v as [[x' y'] z']. intros H.
  generalize (H AxX), (H AxY), (H AxZ). simpl. congruence.
Qed.

(** ** The quantizer, component by component *)

Lemma quantize_map (c : Z) (a : farray) (bins : Z) :
  quantize c a bins = map (v3map (quantize_comp c bins)) a.
Proof.
  unfold quantize, arr_scalar. rewrite !map_map.
  apply map_ext. intros v. now rewrite !v3map_map.
Qed.

Lemma dequantize_map (q : iarray) (bins : Z) :
  dequantize q bins = map (v3map (dequantize_comp bins)) q.
Proof.
  unfold dequantize, arr_scalar. rewrite map_map.
  apply map_ext. intros v. now rewrite v3map_map.
Qed.

Lemma quantize_comp_fin (c bins : Z) (x : R) :
  quantize_comp c bins (Fin x) =
  np_clip (Zfloor (x * IZR (bins - 1))) 0 (bins - 1).
Proof. unfold quantize_comp. simpl fmul. now rewrite astype_floor. Qed.

Lemma quantize_comp_range (c bins : Z) (x : float64) :
  (2 <= bins)%Z -> (0 <= quantize_comp c bins x <= bins - 1)%Z.
Proof. intros H. apply np_clip_range. lia. Qed.

Lemma dequantize_comp_fin (bins q : Z) :
  bins <> 1%Z -> dequantize_comp bins q = Fin (IZR q / IZR (bins - 1)).
Proof.
  intros H. unfold dequantize_comp, astype_float64, of_int.
  apply fdiv_fin. intros E. apply eq_IZR in E. lia.
Qed.

(** A value of [[0,1]] is quantized without clipping. *)
Lemma quantize_comp_unit (c bins : Z) (x : R) :
  (2 <= bins)%Z -> 0 <= x <= 1 ->
  quantize_comp c bins (Fin x) = Zfloor (x * IZR (bins - 1)).
Proof.
  intros Hb Hx. rewrite quantize_comp_fin. apply np_clip_id.
  assert (Hn : 1 <= IZR (bins - 1)) by (apply IZR_le; lia).
  split.
  - apply Zfloor_lub. simpl. nra.
  - assert (H : (Zfloor (x * IZR (bins - 1)) <= Zfloor (IZR (bins - 1)))%Z)
      by (apply Zfloor_le; nra).
    now rewrite ZfloorZ in H.
Qed.

(** The floor quantizer loses less than one step, downward. *)
Lemma round_trip_comp (c bins : Z) (x : R) :
  (2 <= bins)%Z -> 0 <= x <= 1 ->
  exists d, dequantize_comp bins (quantize_comp c bins (Fin x)) = Fin d /\
            0 <= x - d < 1 / IZR (bins - 1).
Proof.
  intros Hb Hx.
  assert (Hn : 1 <= IZR (bins - 1)) by (apply IZR_le; lia).
  rewrite quantize_comp_unit by assumption.
  rewrite dequantize_comp_fin by lia.
  eexists. split; [reflexivity |].
  pose proof (Zfloor_bound (x * IZR (bins - 1))) as [Hlo Hhi].
  set (n := IZR (bins - 1)) in *.
  set (f := IZR (Zfloor (x * n))) in *.
  assert (Hinv : 0 < / n) by (apply Rinv_0_lt_compat; lra).
  assert (E : x - f / n = (x * n - f) * / n) by (field; lra).
  rewrite E. unfold Rdiv. rewrite Rmult_1_l. split.
  - apply Rmult_le_pos; lra.
  - rewrite <- (Rmult_1_l (/ n)) at 2.
    apply Rmult_lt_compat_r; lra.
Qed.

Lemma get_Fvec (ax : axis) (v : rvec) : get ax (Fvec v) = Fin (get ax v).
Proof. apply get_v3map. Qed.

Lemma quantize_comp_bins_one (c : Z) (x : float64) : quantize_comp c 1 x = 0%Z.
Proof. unfold quantize_comp, np_clip. simpl. lia. Qed.

Lemma dequantize_comp_bins_one_zero : dequantize_comp 1 0 = NaN.
Proof. unfold dequantize_comp, astype_float64, of_int. apply fdiv_zero_zero. Qed.

Lemma requantize_comp (c bins q : Z) :
  (2 <= bins)%Z -> (0 <= q <= bins - 1)%Z ->
  quantize_comp c bins (dequantize_comp bins q) = q.
Proof.
  intros Hb Hq. rewrite dequantize_comp_fin by lia.
  rewrite quantize_comp_fin.
  assert (Hn : IZR (bins - 1) <> 0)
    by (intros E; apply eq_IZR in E; lia).
  replace (IZR q / IZR (bins - 1) * IZR (bins - 1)) with (IZR q)
    by (field; exact Hn).
  rewrite ZfloorZ. now apply np_clip_id.
Qed.

(** ** The quantizer *)



Lemma int64_range_Zfloor (y : R) (lo hi : Z) :
  (- 2 ^ 63 <= lo)%Z -> (hi <= 2 ^ 63)%Z -> IZR lo <= y < IZR hi ->
  int64_range (Zfloor y).
Proof.
  intros Hlo Hhi [H1 H2]. unfold int64_range.
  pose proof (Zfloor_lub lo y H1) as Hl.
  pose proof (Zfloor_bound y) as [Hf _].
  assert (Hlt : (Zfloor y < hi)%Z) by (apply lt_IZR; lra).
  lia.
Qed.




(** C9: for bins >= 2 and any input buffer, whatever its values (negative,
    above 1, infinite or nan), every component of the output of quantize
    lies in [0, bins-1]. *)
Theorem quantize_in_range (c bins : Z) (a : farray) :
  (2 <= bins)%Z ->
  Forall (fun v => forall ax, (0 <= get ax v <= bins - 1)%Z)
    (quantize c a bins).
Proof.
  intros Hb. rewrite quantize_map. apply Forall_forall.
  intros v Hin. apply in_map_iff in Hin. destruct Hin as [u [<- _]].
  intros ax. rewrite get_v3map. now apply quantize_comp_range.
Qed.

Lemma quantize_in_range_witness :
  Forall (fun v => forall ax, (0 <= get ax v <= 4 - 1)%Z)
    (quantize (- 2 ^ 63) [(Fin (- 5), Fin 7, NaN); (PInf, NInf, Fin (1 / 3))] 4).
Proof.
  apply (quantize_in_range (- 2 ^ 63) 4
           [(Fin (- 5), Fin 7, NaN); (PInf, NInf, Fin (1 / 3))]).
  lia.
Defined.

(** C10: for bins >= 2 and a quantized buffer with components in
    [0, bins-1], quantizing the dequantized buffer gives the buffer back. *)
Theorem requantize_fixed_point (c bins : Z) (q : iarray) :
  (2 <= bins)%Z ->
  Forall (fun v => forall ax, (0 <= get ax v <= bins - 1)%Z) q ->
  quantize c (dequantize q bins) bins = q.
Proof.
  intros Hb Hq. rewrite dequantize_map, quantize_map, map_map.
  induction Hq as [| v q Hv Hq IH]; simpl; [reflexivity |].
  rewrite IH. f_equal. rewrite v3map_map. apply v3map_id.
  intros ax. now apply requantize_comp.
Qed.

Lemma requantize_fixed_point_witness :
  quantize 0 (dequantize [(0, 1, 2)%Z; (3, 3, 0)%Z] 4) 4 =
  [(0, 1, 2)%Z; (3, 3, 0)%Z].
Proof.
  apply (requantize_fixed_point 0 4 [(0, 1, 2)%Z; (3, 3, 0)%Z]).
  - lia.
  - repeat constructor; destruct ax; simpl; lia.
Defined.

(** With one bin the scale factor is 0: every component is quantized to 0
    and dequantized as 0/0. *)
Lemma bins_one_all_nan (c : Z) (a : farray) :
  quantize c a 1 = map (fun _ => (0, 0, 0)%Z) a /\
  dequantize (quantize c a 1) 1 = map (fun _ => (NaN, NaN, NaN)) a.
Proof.
  assert (Hq : quantize c a 1 = map (fun _ => (0, 0, 0)%Z) a).
  { rewrite quantize_map. apply map_ext. intros [[x y] z]. simpl.
    now rewrite !quantize_comp_bins_one. }
  split; [exact Hq |].
  rewrite Hq, dequantize_map, map_map. apply map_ext. intros _. simpl.
  now rewrite dequantize_comp_bins_one_zero.
Qed.

(** C3, as the script behaves: with bins = 1 nothing is raised; quantize
    returns 0 for every component and dequantize then divides 0 by
    bins - 1 = 0, which gives nan for every component.  For any other bin
    count, below 2 included, dequantize divides by a non-zero number and
    returns finite values. *)
Theorem quantizer_bins_unchecked (c : Z) (a : farray) :
  quantize c a 1 = map (fun _ => (0, 0, 0)%Z) a /\
  dequantize (quantize c a 1) 1 = map (fun _ => (NaN, NaN, NaN)) a /\
  (forall (bins : Z) (q : iarray), bins <> 1%Z ->
     Forall (fun v => forall ax, is_finite (get ax v)) (dequantize q bins)).
Proof.
  destruct (bins_one_all_nan c a) as [Hq Hd].
  repeat split; [exact Hq | exact Hd |].
  intros bins q Hb. rewrite dequantize_map. apply Forall_forall.
  intros v Hin. apply in_map_iff in Hin. destruct Hin as [u [<- _]].
  intros ax. rewrite get_v3map, dequantize_comp_fin by exact Hb.
  exact I.
Qed.

(** C3 fails on the script: with bins = 1 the quantizer returns normally
    and its output is nan throughout; a non-zero quantized value gives an
    infinity. *)
Lemma quantizer_bins_one_returns_nan :
  dequantize (quantize 0 [(Fin (1 / 2), Fin (1 / 4), Fin 1)] 1) 1 =
    [(NaN, NaN, NaN)] /\
  dequantize [(1, 0, -1)%Z] 1 = [(PInf, NaN, NInf)].
Proof.
  split.
  - exact (proj2 (bins_one_all_nan 0 [(Fin (1 / 2), Fin (1 / 4), Fin 1)])).
  - rewrite dequantize_map. simpl.
    unfold dequantize_comp, astype_float64, of_int. simpl Z.sub.
    rewrite fdiv_zero_zero, fdiv_pos_zero, fdiv_neg_zero by lra.
    reflexivity.
Qed.

(** ** Finite arrays *)

Lemma Farr_length (a : rarray) : List.length (Farr a) = List.length a.
Proof. apply length_map. Qed.

Lemma fold_left_get {A : Type} (f : A -> A -> A) (ax : axis)
  (rest : list (vec3 A)) (v : vec3 A) :
  get ax (fold_left (v3map2 f) rest v) =
  fold_left f (map (get ax) rest) (get ax v).
Proof.
  revert v. induction rest as [| u rest IH]; intros v; simpl; [reflexivity |].
  now rewrite IH, get_v3map2.
Qed.

(** A fold of an operation that keeps finite values finite. *)
Lemma fold_left_fin (F : float64 -> float64 -> float64) (f : R -> R -> R) :
  (forall x y, F (Fin x) (Fin y) = Fin (f x y)) ->
  forall (rest : rarray) (v : rvec),
    fold_left (v3map2 F) (Farr rest) (Fvec v) =
    Fvec (fold_left (v3map2 f) rest v).
Proof.
  intros HF rest. induction rest as [| u rest IH]; intros v; simpl;
    [reflexivity |].
  rewrite <- IH. f_equal.
  destruct v as [[x y] z], u as [[x' y'] z']. simpl. now rewrite !HF.
Qed.

Lemma fold_left_Rmin_le (l : list R) (x y : R) :
  In y (x :: l) -> fold_left Rmin l x <= y.
Proof.
  revert x y. induction l as [| z l IH]; intros x y Hin; simpl.
  - destruct Hin as [-> | []]. lra.
  - destruct Hin as [<- | [<- | Hin]].
    + apply Rle_trans with (Rmin x z).
      * apply IH. now left.
      * apply Rmin_l.
    + apply Rle_trans with (Rmin x z).
      * apply IH. now left.
      * apply Rmin_r.
    + apply IH. now right.
Qed.

Lemma fold_left_Rmax_ge (l : list R) (x y : R) :
  In y (x :: l) -> y <= fold_left Rmax l x.
Proof.
  revert x y. induction l as [| z l IH]; intros x y Hin; simpl.
  - destruct Hin as [-> | []]. lra.
  - destruct Hin as [<- | [<- | Hin]].
    + apply Rle_trans with (Rmax x z).
      * apply Rmax_l.
      * apply IH. now left.
    + apply Rle_trans with (Rmax x z).
      * apply Rmax_r.
      * apply IH. now left.
    + apply IH. now right.
Qed.

(** The column minimum and maximum of a finite non-empty array. *)
Lemma arr_min0_fin (u : rvec) (rest : rarray) :
  arr_min0 (Farr (u :: rest)) = Ok (Fvec (fold_left (v3map2 Rmin) rest u)).
Proof.
  unfold arr_min0. simpl. f_equal.
  now apply (fold_left_fin fmin Rmin).
Qed.

Lemma arr_max0_fin (u : rvec) (rest : rarray) :
  arr_max0 (Farr (u :: rest)) = Ok (Fvec (fold_left (v3map2 Rmax) rest u)).
Proof.
  unfold arr_max0. simpl. f_equal.
  now apply (fold_left_fin fmax Rmax).
Qed.

Lemma col_min_le (ax : axis) (u w : rvec) (rest : rarray) :
  In w (u :: rest) -> get ax (fold_left (v3map2 Rmin) rest u) <= get ax w.
Proof.
  intros Hin. rewrite fold_left_get. apply fold_left_Rmin_le.
  change (In (get ax w) (map (get ax) (u :: rest))). now apply in_map.
Qed.

Lemma col_max_ge (ax : axis) (u w : rvec) (rest : rarray) :
  In w (u :: rest) -> get ax w <= get ax (fold_left (v3map2 Rmax) rest u).
Proof.
  intros Hin. rewrite fold_left_get. apply fold_left_Rmax_ge.
  change (In (get ax w) (map (get ax) (u :: rest))). now apply in_map.
Qed.

Lemma fold_left_Rplus (l : list R) (acc : R) :
  fold_left Rplus l acc = acc + Rsum l.
Proof.
  revert acc. induction l as [| x l IH]; intros acc; simpl.
  - lra.
  - rewrite IH. unfold Rsum. lra.
Qed.

Lemma arr_sum0_fin (a : rarray) : arr_sum0 (Farr a) = Fvec (rsum0 a).
Proof.
  unfold arr_sum0. change (Fin 0, Fin 0, Fin 0) with (Fvec (0, 0, 0)).
  rewrite (fold_left_fin fadd Rplus) by reflexivity.
  f_equal. apply vec3_ext. intros ax.
  rewrite fold_left_get, fold_left_Rplus.
  destruct ax; simpl; lra.
Qed.

Lemma INR_length_neq0 {A : Type} (l : list A) : l <> [] -> INR (List.length l) <> 0.
Proof.
  intros H. destruct l as [| x l]; [congruence |].
  apply not_0_INR. discriminate.
Qed.

Lemma arr_mean0_fin (a : rarray) :
  a <> [] -> arr_mean0 (Farr a) = Fvec (rmean0 a).
Proof.
  intros Ha. unfold arr_mean0, rmean0, count.
  rewrite arr_sum0_fin, Farr_length. unfold Fvec. rewrite !v3map_map.
  apply v3map_ext. intros ax. apply fdiv_fin. now apply INR_length_neq0.
Qed.

Lemma get_rmean0 (ax : axis) (a : rarray) :
  get ax (rmean0 a) = Rmean (map (get ax) a).
Proof.
  unfold rmean0. rewrite get_v3map. unfold Rmean. rewrite length_map.
  now destruct ax.
Qed.

Lemma vec_mean_fin (v : rvec) :
  vec_mean (Fvec v) = Fin (Rmean [get AxX v; get AxY v; get AxZ v]).
Proof.
  destruct v as [[x y] z]. unfold vec_mean, Fvec, v3map. simpl fadd.
  rewrite fdiv_fin by lra. f_equal. unfold Rmean. simpl. field.
Qed.

(** ** The error analyzer *)

Lemma broadcast2_same_length (f : float64 -> float64 -> float64)
  (a b : farray) :
  List.length a = List.length b ->
  broadcast2 f a b = Ok (map (fun p => v3map2 f (fst p) (snd p)) (combine a b)).
Proof.
  intros H. unfold broadcast2. now rewrite H, Nat.eqb_refl.
Qed.

Lemma combine_Farr (o r : rarray) :
  combine (Farr o) (Farr r) =
  map (fun p => (Fvec (fst p), Fvec (snd p))) (combine o r).
Proof.
  revert r. induction o as [| u o IH]; intros [| w r]; simpl;
    try reflexivity.
  now rewrite IH.
Qed.

(** The difference of two finite buffers of the same length is finite. *)
Lemma diff_fin (o r : rarray) :
  List.length o = List.length r ->
  broadcast2 fsub (Farr o) (Farr r) =
  Ok (Farr (map (fun p => v3map2 Rminus (fst p) (snd p)) (combine o r))).
Proof.
  intros H. rewrite broadcast2_same_length by now rewrite !Farr_length.
  f_equal. rewrite combine_Farr. unfold Farr. rewrite !map_map.
  apply map_ext. intros [[[x y] z] [[x' y'] z']]. reflexivity.
Qed.

Lemma map_fsquare_fin (d : rarray) :
  map (v3map fsquare) (Farr d) = Farr (map (v3map (fun x => x * x)) d).
Proof.
  unfold Farr. rewrite !map_map. apply map_ext.
  intros [[x y] z]. reflexivity.
Qed.

Lemma map_fabs_fin (d : rarray) :
  map (v3map fabs) (Farr d) = Farr (map (v3map Rabs) d).
Proof.
  unfold Farr. rewrite !map_map. apply map_ext.
  intros [[x y] z]. reflexivity.
Qed.

Lemma col_of_diff (g : R -> R) (ax : axis) (o r : rarray) :
  map (get ax)
    (map (v3map g) (map (fun p => v3map2 Rminus (fst p) (snd p)) (combine o r)))
  = map g (diff_col ax o r).
Proof.
  unfold diff_col. rewrite !map_map. apply map_ext. intros [u w].
  now rewrite get_v3map, get_v3map2.
Qed.

(** On finite buffers of one length [N >= 1] the report holds the means of
    the error formulas. *)
Lemma compute_errors_fin (o r : rarray) :
  List.length o = List.length r -> o <> [] ->
  compute_errors (Farr o) (Farr r) =
  Ok (mkReport
        (Fvec (mse_axis AxX o r, mse_axis AxY o r, mse_axis AxZ o r))
        (Fvec (mae_axis AxX o r, mae_axis AxY o r, mae_axis AxZ o r))
        (Fin (Rmean [mse_axis AxX o r; mse_axis AxY o r; mse_axis AxZ o r]))
        (Fin (Rmean [mae_axis AxX o r; mae_axis AxY o r; mae_axis AxZ o r]))).
Proof.
  intros Hlen Hne. unfold compute_errors. rewrite diff_fin by exact Hlen.
  simpl bind.
  set (d := map (fun p => v3map2 Rminus (fst p) (snd p)) (combine o r)).
  assert (Hd : forall g : R -> R, map (v3map g) d <> []).
  { intros g E. apply Hne. apply (f_equal (@List.length _)) in E.
    unfold d in E. rewrite !length_map, length_combine, <- Hlen in E.
    rewrite Nat.min_id in E. simpl in E.
    now apply length_zero_iff_nil. }
  rewrite map_fsquare_fin, map_fabs_fin.
  rewrite !arr_mean0_fin by apply Hd.
  assert (Hm : forall g : R -> R,
             rmean0 (map (v3map g) d) =
             (Rmean (map g (diff_col AxX o r)),
              Rmean (map g (diff_col AxY o r)),
              Rmean (map g (diff_col AxZ o r)))).
  { intros g. apply vec3_ext. intros ax. rewrite get_rmean0.
    unfold d. rewrite col_of_diff. now destruct ax. }
  rewrite !Hm, !vec_mean_fin. reflexivity.
Qed.

(** C5: for finite buffers of equal length N >= 1, compute_errors returns,
    for each axis, the mean over the vertices of the squared differences
    and the mean of the absolute differences, and as scalars the means of
    the three per-axis means; on [[0,0,0],[2,0,0]] against
    [[0,0,0],[0,0,0]] it returns mse_per_axis = [2,0,0],
    mae_per_axis = [1,0,0], mse = 2/3 and mae = 1/3. *)
Theorem compute_errors_formula :
  (forall o r : rarray,
      List.length o = List.length r -> o <> [] ->
      exists rep,
        compute_errors (Farr o) (Farr r) = Ok rep /\
        (forall ax, get ax (mse_per_axis rep) = Fin (mse_axis ax o r)) /\
        (forall ax, get ax (mae_per_axis rep) = Fin (mae_axis ax o r)) /\
        mse rep =
          Fin ((mse_axis AxX o r + mse_axis AxY o r + mse_axis AxZ o r) / 3) /\
        mae rep =
          Fin ((mae_axis AxX o r + mae_axis AxY o r + mae_axis AxZ o r) / 3)) /\
  compute_errors (Farr [(0, 0, 0); (2, 0, 0)]) (Farr [(0, 0, 0); (0, 0, 0)]) =
    Ok (mkReport (Fin 2, Fin 0, Fin 0) (Fin 1, Fin 0, Fin 0)
          (Fin (2 / 3)) (Fin (1 / 3))).
Proof.
  split.
  - intros o r Hlen Hne. eexists. split; [now apply compute_errors_fin |].
    simpl. repeat split.
    + now intros [].
    + now intros [].
    + f_equal. unfold Rmean. simpl. field.
    + f_equal. unfold Rmean. simpl. field.
  - rewrite compute_errors_fin by (reflexivity || discriminate).
    unfold mse_axis, mae_axis, Rmean, diff_col, Fvec. simpl.
    replace (0 - 0) with 0 by lra. replace (2 - 0) with 2 by lra.
    rewrite Rabs_R0, (Rabs_pos_eq 2) by lra.
    repeat f_equal; field.
Qed.

Lemma compute_errors_formula_witness :
  exists rep,
    compute_errors (Farr [(1, 2, 3); (4, 6, 8)]) (Farr [(1, 1, 1); (2, 2, 2)])
      = Ok rep /\
    mse rep =
      Fin ((mse_axis AxX [(1, 2, 3); (4, 6, 8)] [(1, 1, 1); (2, 2, 2)] +
            mse_axis AxY [(1, 2, 3); (4, 6, 8)] [(1, 1, 1); (2, 2, 2)] +
            mse_axis AxZ [(1, 2, 3); (4, 6, 8)] [(1, 1, 1); (2, 2, 2)]) / 3).
Proof.
  destruct (proj1 compute_errors_formula
              [(1, 2, 3); (4, 6, 8)] [(1, 1, 1); (2, 2, 2)])
    as [rep [H [_ [_ [Hm _]]]]].
  - reflexivity.
  - discriminate.
  - exists rep. split; [exact H | exact Hm].
Defined.

Lemma broadcast2_mismatch (f : float64 -> float64 -> float64) (a b : farray) :
  List.length a <> List.length b ->
  List.length a <> 1%nat -> List.length b <> 1%nat ->
  broadcast2 f a b = Raise ValueError.
Proof.
  intros Hab Ha Hb. unfold broadcast2.
  destruct (Nat.eqb_spec (List.length a) (List.length b)) as [E | _];
    [contradiction |].
  destruct a as [| u [| u' a]]; destruct b as [| w [| w' b]];
    simpl in *; congruence.
Qed.

Lemma broadcast2_stretch_left (f : float64 -> float64 -> float64)
  (u : fvec) (b : farray) :
  broadcast2 f [u] b = Ok (map (fun v => v3map2 f u v) b).
Proof.
  unfold broadcast2.
  destruct (Nat.eqb_spec (List.length [u]) (List.length b)) as [E | _];
    [| reflexivity].
  destruct b as [| w [| w' b]]; simpl in E; try discriminate. reflexivity.
Qed.

Lemma broadcast2_stretch_right (f : float64 -> float64 -> float64)
  (a : farray) (w : fvec) :
  broadcast2 f a [w] = Ok (arr_row f a w).
Proof.
  unfold broadcast2.
  destruct (Nat.eqb_spec (List.length a) (List.length [w])) as [E | _].
  - destruct a as [| u [| u' a]]; simpl in E; try discriminate. reflexivity.
  - destruct a as [| u [| u' a]]; reflexivity.
Qed.

Lemma compute_errors_of_diff (o r diff : farray) :
  broadcast2 fsub o r = Ok diff ->
  exists rep, compute_errors o r = Ok rep.
Proof.
  intros H. unfold compute_errors. rewrite H. simpl. eexists. reflexivity.
Qed.

(** C8, as the script behaves: on buffers of different lengths
    compute_errors raises (NumPy's ValueError) when neither length is 1;
    when one of the buffers holds exactly one vertex, NumPy broadcasts it
    over the other buffer and a report is returned. *)
Theorem compute_errors_length_mismatch (o r : farray) :
  List.length o <> List.length r ->
  (List.length o <> 1%nat -> List.length r <> 1%nat ->
   compute_errors o r = Raise ValueError) /\
  (List.length o = 1%nat \/ List.length r = 1%nat ->
   exists rep, compute_errors o r = Ok rep).
Proof.
  intros Hlen. split.
  - intros Ho Hr. unfold compute_errors.
    now rewrite broadcast2_mismatch.
  - intros [Ho | Hr].
    + destruct o as [| u [| u' o]]; try discriminate.
      eapply compute_errors_of_diff. apply broadcast2_stretch_left.
    + destruct r as [| w [| w' r]]; try discriminate.
      eapply compute_errors_of_diff. apply broadcast2_stretch_right.
Qed.

Lemma compute_errors_length_mismatch_witness :
  compute_errors
    [(Fin 0, Fin 0, Fin 0); (Fin 1, Fin 1, Fin 1)]
    [(Fin 0, Fin 0, Fin 0); (Fin 1, Fin 1, Fin 1); (Fin 2, Fin 2, Fin 2)]
  = Raise ValueError.
Proof.
  apply (compute_errors_length_mismatch
           [(Fin 0, Fin 0, Fin 0); (Fin 1, Fin 1, Fin 1)]
           [(Fin 0, Fin 0, Fin 0); (Fin 1, Fin 1, Fin 1);
            (Fin 2, Fin 2, Fin 2)]);
    simpl; lia.
Defined.

(** C8 fails on the script: an original buffer of one vertex against a
    reconstructed buffer of two vertices gives a normal report. *)
Lemma compute_errors_broadcasts_single_vertex :
  compute_errors [(Fin 1, Fin 1, Fin 1)]
                 [(Fin 0, Fin 0, Fin 0); (Fin 2, Fin 2, Fin 2)]
  = Ok (mkReport (Fin 1, Fin 1, Fin 1) (Fin 1, Fin 1, Fin 1) (Fin 1) (Fin 1)).
Proof.
  unfold compute_errors. rewrite broadcast2_stretch_left.
  assert (E : map (fun v => v3map2 fsub (Fin 1, Fin 1, Fin 1) v)
                [(Fin 0, Fin 0, Fin 0); (Fin 2, Fin 2, Fin 2)] =
              Farr [(1 + - 0, 1 + - 0, 1 + - 0); (1 + - 2, 1 + - 2, 1 + - 2)])
    by reflexivity.
  rewrite E. unfold bind.
  rewrite map_fsquare_fin, map_fabs_fin.
  rewrite !arr_mean0_fin by discriminate.
  rewrite !vec_mean_fin.
  unfold rmean0, rsum0, Rmean, Rsum, Fvec. simpl.
  assert (A0 : Rabs (1 + - 0) = 1) by (unfold Rabs; destruct Rcase_abs; lra).
  assert (A2 : Rabs (1 + - 2) = 1) by (unfold Rabs; destruct Rcase_abs; lra).
  rewrite A0, A2.
  repeat f_equal; field.
Qed.

(** ** Empty input *)

Lemma arr_mean0_nil : arr_mean0 [] = (NaN, NaN, NaN).
Proof.
  change (arr_mean0 [])
    with (fdiv (Fin 0) (Fin 0), fdiv (Fin 0) (Fin 0), fdiv (Fin 0) (Fin 0)).
  now rewrite fdiv_zero_zero.
Qed.

Lemma compute_errors_nil :
  compute_errors [] [] =
  Ok (mkReport (NaN, NaN, NaN) (NaN, NaN, NaN) NaN NaN).
Proof.
  unfold compute_errors.
  change (broadcast2 fsub [] []) with (@Ok farray []).
  unfold bind. change (map (v3map fsquare) []) with (@nil fvec).
  change (map (v3map fabs) []) with (@nil fvec).
  now rewrite arr_mean0_nil.
Qed.

Lemma process_mesh_skips (c : Z) (m : mesh) (bins : Z) :
  is_empty m = true -> process_mesh c m bins = Ok Skipped.
Proof. intros H. unfold process_mesh. now rewrite H. Qed.

Lemma run_method_nil (c : Z) (mt : string * normalize_fn * denormalize_fn)
  (bins : Z) :
  In mt methods ->
  run_method c (snd (fst mt)) (snd mt) [] bins = Raise ValueError.
Proof.
  intros [<- | [<- | []]]; reflexivity.
Qed.

(** C4, as the script behaves: a mesh without vertices, which trimesh flags
    as empty, is skipped: process_mesh returns without raising, before any
    normalization or mean is computed, and without an error report. *)
Theorem empty_mesh_is_skipped (c : Z) (m : mesh) (bins : Z) :
  mesh_vertices m = [] -> is_empty m = true ->
  process_mesh c m bins = Ok Skipped.
Proof.
  intros _ He. now apply process_mesh_skips.
Qed.

Lemma empty_mesh_is_skipped_witness :
  process_mesh 0 (mkMesh true [] None) 1024 = Ok Skipped.
Proof.
  apply (empty_mesh_is_skipped 0 (mkMesh true [] None) 1024); reflexivity.
Defined.

(** C4 fails on the script: for the empty buffer the pipeline produces no
    error report at all, and the error analyzer alone gives nan, not 0. *)
Lemma empty_input_has_no_zero_report :
  process_mesh 0 (mkMesh true [] None) 1024 = Ok Skipped /\
  run_method 0 normalize_minmax denormalize_minmax [] 1024 = Raise ValueError /\
  run_method 0 normalize_unit_sphere denormalize_unit_sphere [] 1024 =
    Raise ValueError /\
  compute_errors [] [] = Ok (mkReport (NaN, NaN, NaN) (NaN, NaN, NaN) NaN NaN).
Proof.
  repeat split. apply compute_errors_nil.
Qed.

(** ** Normalization of finite buffers *)

Lemma map_fixes {A : Type} (f : A -> A) (l : list A) :
  (forall x, In x l -> f x = x) -> map f l = l.
Proof.
  intros H. rewrite <- (map_id l) at 2. now apply map_ext_in.
Qed.

Lemma arr_row_fin (F : float64 -> float64 -> float64) (f : R -> R -> R)
  (a : rarray) (r : rvec) :
  (forall x ax, F (Fin x) (Fin (get ax r)) = Fin (f x (get ax r))) ->
  arr_row F (Farr a) (Fvec r) = Farr (map (fun w => v3map2 f w r) a).
Proof.
  intros HF. unfold arr_row, Farr. rewrite !map_map. apply map_ext.
  intros [[x y] z]. destruct r as [[rx ry] rz].
  generalize (HF x AxX), (HF y AxY), (HF z AxZ). simpl.
  now intros -> -> ->.
Qed.

Lemma arr_scalar_fin (F : float64 -> float64 -> float64) (f : R -> R -> R)
  (a : rarray) (s : R) :
  (forall x, F (Fin x) (Fin s) = Fin (f x s)) ->
  arr_scalar F (Farr a) (Fin s) = Farr (map (v3map (fun x => f x s)) a).
Proof.
  intros HF. unfold arr_scalar, Farr. rewrite !map_map. apply map_ext.
  intros [[x y] z]. simpl. now rewrite !HF.
Qed.

Lemma rfix_zero_neq0 (d : R) : rfix_zero d <> 0.
Proof. unfold rfix_zero. destruct (Req_EM_T d 0); lra. Qed.

Lemma denom_fin (mx mn : rvec) :
  v3map fix_zero (v3map2 fsub (Fvec mx) (Fvec mn)) =
  Fvec (v3map rfix_zero (v3map2 Rminus mx mn)).
Proof.
  destruct mx as [[x y] z], mn as [[x' y'] z']. simpl.
  now rewrite !fix_zero_fin.
Qed.

(** What min-max normalization returns on a finite non-empty buffer. *)
Lemma normalize_minmax_fin (u : rvec) (rest : rarray) :
  let mn := fold_left (v3map2 Rmin) rest u in
  let mx := fold_left (v3map2 Rmax) rest u in
  let dn := v3map rfix_zero (v3map2 Rminus mx mn) in
  normalize_minmax (Farr (u :: rest)) =
  Ok (Farr (map (fun w => v3map2 Rdiv (v3map2 Rminus w mn) dn) (u :: rest)),
      MinMaxMeta (Fvec mn) (Fvec mx)).
Proof.
  intros mn mx dn. unfold normalize_minmax.
  rewrite arr_min0_fin, arr_max0_fin. unfold bind.
  fold mn. fold mx. rewrite denom_fin. fold dn.
  rewrite (arr_row_fin fsub Rminus) by reflexivity.
  rewrite (arr_row_fin fdiv Rdiv).
  - now rewrite map_map.
  - intros x ax. apply fdiv_fin. unfold dn. rewrite get_v3map.
    apply rfix_zero_neq0.
Qed.

Lemma denormalize_minmax_fin (nz : rarray) (mn mx : rvec) :
  denormalize_minmax (Farr nz) (MinMaxMeta (Fvec mn) (Fvec mx)) =
  Ok (Farr (map (fun w => v3map2 Rplus (v3map2 Rmult w (v3map2 Rminus mx mn)) mn)
              nz)).
Proof.
  unfold denormalize_minmax. f_equal.
  assert (E : v3map2 fsub (Fvec mx) (Fvec mn) = Fvec (v3map2 Rminus mx mn))
    by (now destruct mx as [[x y] z], mn as [[x' y'] z']).
  rewrite E.
  rewrite (arr_row_fin fmul Rmult) by reflexivity.
  rewrite (arr_row_fin fadd Rplus) by reflexivity.
  now rewrite map_map.
Qed.

(** One coordinate through min-max normalization and back. *)
Lemma minmax_comp (x mn mx : R) :
  mn <= x <= mx ->
  (x - mn) / rfix_zero (mx - mn) * (mx - mn) + mn = x.
Proof.
  intros H. unfold rfix_zero. destruct (Req_EM_T (mx - mn) 0) as [E | N].
  - rewrite E. lra.
  - field. exact N.
Qed.

Lemma minmax_round_trip (v : rarray) :
  v <> [] ->
  exists normalized m,
    normalize_minmax (Farr v) = Ok (normalized, m) /\
    denormalize_minmax normalized m = Ok (Farr v).
Proof.
  intros Hne. destruct v as [| u rest]; [congruence |].
  rewrite normalize_minmax_fin. do 2 eexists. split; [reflexivity |].
  rewrite denormalize_minmax_fin. f_equal. f_equal.
  rewrite map_map. apply map_fixes.
  intros w Hin. apply vec3_ext. intros ax.
  rewrite !get_v3map2, get_v3map, get_v3map2.
  apply minmax_comp. split.
  - now apply col_min_le.
  - now apply col_max_ge.
Qed.

(** The (N,) array of row norms and its maximum, on a finite array. *)
Lemma row_norm_fin (w : rvec) : row_norm (Fvec w) = Fin (rnorm w).
Proof.
  destruct w as [[x y] z]. unfold row_norm, Fvec, v3map. simpl.
  destruct (Rlt_dec (x * x + y * y + z * z) 0) as [H | _]; [nra | reflexivity].
Qed.

Lemma fold_left_fmax_fin (l : list R) (x : R) :
  fold_left fmax (map Fin l) (Fin x) = Fin (fold_left Rmax l x).
Proof.
  revert x. induction l as [| y l IH]; intros x; simpl; [reflexivity |].
  apply IH.
Qed.

Lemma list_max_fin (d : R) (l : list R) :
  list_max (map Fin (d :: l)) = Ok (Fin (fold_left Rmax l d)).
Proof. simpl. f_equal. apply fold_left_fmax_fin. Qed.

(** What unit-sphere normalization returns on a finite non-empty buffer. *)
Lemma normalize_unit_sphere_fin (u : rvec) (rest : rarray) :
  let v := u :: rest in
  let c := rmean0 v in
  let sh := map (fun w => v3map2 Rminus w c) v in
  let md := rfix_zero (fold_left Rmax (map rnorm (tl sh)) (rnorm (hd u sh))) in
  normalize_unit_sphere (Farr v) =
  Ok (Farr (map (v3map (fun x => (x / md + 1) / 2)) sh),
      SphereMeta (Fvec c) (Fin md)).
Proof.
  intros v c sh md. unfold normalize_unit_sphere.
  rewrite arr_mean0_fin by discriminate. fold c.
  rewrite (arr_row_fin fsub Rminus) by reflexivity. fold sh.
  assert (Hd : map row_norm (Farr sh) =
               map Fin (rnorm (hd u sh) :: map rnorm (tl sh))).
  { change (rnorm (hd u sh) :: map rnorm (tl sh)) with (map rnorm sh).
    unfold Farr. rewrite !map_map. apply map_ext. apply row_norm_fin. }
  rewrite Hd, list_max_fin. unfold bind.
  set (m := fold_left Rmax (map rnorm (tl sh)) (rnorm (hd u sh))) in *.
  change (if feq0 (Fin m) then Fin 1 else Fin m) with (fix_zero (Fin m)).
  rewrite fix_zero_fin. fold (rfix_zero m). fold md.
  rewrite (arr_scalar_fin fdiv Rdiv)
    by (intros x; apply fdiv_fin, rfix_zero_neq0).
  rewrite (arr_scalar_fin fadd Rplus) by reflexivity.
  rewrite (arr_scalar_fin fdiv Rdiv) by (intros x; apply fdiv_fin; lra).
  rewrite !map_map. do 3 f_equal. apply map_ext. intros w.
  now rewrite !v3map_map.
Qed.

Lemma denormalize_unit_sphere_fin (nz : rarray) (c : rvec) (md : R) :
  denormalize_unit_sphere (Farr nz) (SphereMeta (Fvec c) (Fin md)) =
  Ok (Farr (map (fun w => v3map2 Rplus (v3map (fun x => (x * 2 - 1) * md) w) c)
              nz)).
Proof.
  unfold denormalize_unit_sphere. f_equal.
  rewrite (arr_scalar_fin fmul Rmult) by reflexivity.
  rewrite (arr_scalar_fin fsub Rminus) by reflexivity.
  rewrite (arr_scalar_fin fmul Rmult) by reflexivity.
  rewrite (arr_row_fin fadd Rplus) by reflexivity.
  rewrite !map_map. f_equal. apply map_ext. intros w.
  now rewrite !v3map_map.
Qed.

Lemma unit_sphere_round_trip (v : rarray) :
  v <> [] ->
  exists normalized m,
    normalize_unit_sphere (Farr v) = Ok (normalized, m) /\
    denormalize_unit_sphere normalized m = Ok (Farr v).
Proof.
  intros Hne. destruct v as [| u rest]; [congruence |].
  rewrite normalize_unit_sphere_fin. do 2 eexists. split; [reflexivity |].
  rewrite denormalize_unit_sphere_fin. f_equal. f_equal.
  rewrite !map_map. apply map_fixes.
  intros w _. apply vec3_ext. intros ax.
  rewrite get_v3map2, !get_v3map, get_v3map2.
  field. apply rfix_zero_neq0.
Qed.

(** C1, under exact arithmetic: for each of the two strategies and every
    non-empty finite buffer v, degenerate or not, the strategy's inverse
    applied to the output of its forward transform, with the metadata of
    that call and no quantization in between, returns v. *)
Theorem normalization_round_trip
  (mt : string * normalize_fn * denormalize_fn) (v : rarray) :
  In mt methods -> v <> [] ->
  exists normalized m,
    snd (fst mt) (Farr v) = Ok (normalized, m) /\
    snd mt normalized m = Ok (Farr v).
Proof.
  intros Hin Hne.
  destruct Hin as [<- | [<- | []]]; simpl fst; simpl snd.
  - exact (minmax_round_trip v Hne).
  - exact (unit_sphere_round_trip v Hne).
Qed.

Lemma normalization_round_trip_witness :
  exists normalized m,
    normalize_unit_sphere (Farr [(0, 0, 0); (1, 2, 3); (4, 1, - 2)]) =
      Ok (normalized, m) /\
    denormalize_unit_sphere normalized m =
      Ok (Farr [(0, 0, 0); (1, 2, 3); (4, 1, - 2)]).
Proof.
  apply (normalization_round_trip
           ("unit_sphere"%string, normalize_unit_sphere,
            denormalize_unit_sphere)
           [(0, 0, 0); (1, 2, 3); (4, 1, - 2)]).
  - right. left. reflexivity.
  - discriminate.
Defined.

(** C1 fails on the script in binary64.  On the buffer
    [[-1,-1,-1], [1e-12,1e-12,1e-12], [1,1,1]] the round trip of either
    strategy returns the middle vertex with a relative error above 1e-9
    (it is not even within 1e-5); on
    [[-1e20,-1e20,-1e20], [1,1,1], [1e20,1e20,1e20]] either strategy
    returns the vertex [1,1,1] as [0,0,0]. *)
Lemma round_trip_exceeds_tolerance :
  let tiny := Binary64.div Binary64.one (Binary64.of_int (10 ^ 12)) in
  let m1 := Binary64.of_int (- 1) in
  let p1 := Binary64.one in
  let small := [(m1, m1, m1); (tiny, tiny, tiny); (p1, p1, p1)] in
  let nbig := Binary64.of_int (- 10 ^ 20) in
  let big := Binary64.of_int (10 ^ 20) in
  let wide := [(nbig, nbig, nbig); (p1, p1, p1); (big, big, big)] in
  let r1 := S754_finite false 4952200371503104 (-92) in
  let r2 := S754_finite false 4950892740119270 (-92) in
  Binary64.round_trip Binary64.normalize_minmax Binary64.denormalize_minmax
    small = Ok [(m1, m1, m1); (r1, r1, r1); (p1, p1, p1)] /\
  Binary64.rel_close 1 (10 ^ 9) tiny r1 = false /\
  Binary64.rel_close 1 (10 ^ 5) tiny r1 = false /\
  Binary64.round_trip Binary64.normalize_unit_sphere
    Binary64.denormalize_unit_sphere small =
    Ok [(m1, m1, m1); (r2, r2, r2); (p1, p1, p1)] /\
  Binary64.rel_close 1 (10 ^ 9) tiny r2 = false /\
  Binary64.round_trip Binary64.normalize_minmax Binary64.denormalize_minmax
    wide =
    Ok [(nbig, nbig, nbig);
        (Binary64.zero, Binary64.zero, Binary64.zero);
        (big, big, big)] /\
  Binary64.round_trip Binary64.normalize_unit_sphere
    Binary64.denormalize_unit_sphere wide =
    Ok [(nbig, nbig, nbig);
        (Binary64.zero, Binary64.zero, Binary64.zero);
        (big, big, big)] /\
  Binary64.rel_close 1 (10 ^ 9) p1 Binary64.zero = false.
Proof.
  vm_compute. repeat split.
Qed.

Lemma fold_left_const (f : R -> R -> R) (l : list R) (c : R) :
  f c c = c -> (forall y, In y l -> y = c) -> fold_left f l c = c.
Proof.
  intros Hf. induction l as [| y l IH]; intros Hl; simpl; [reflexivity |].
  rewrite (Hl y) by now left. rewrite Hf. apply IH.
  intros z Hz. apply Hl. now right.
Qed.

Lemma col_fold_const (f : R -> R -> R) (ax : axis) (u : rvec)
  (rest : rarray) (c : R) :
  f c c = c -> (forall w, In w (u :: rest) -> get ax w = c) ->
  get ax (fold_left (v3map2 f) rest u) = c.
Proof.
  intros Hf Hc. rewrite fold_left_get, (Hc u) by now left.
  apply fold_left_const; [exact Hf |].
  intros y Hy. apply in_map_iff in Hy. destruct Hy as [w [<- Hw]].
  apply Hc. now right.
Qed.

(** C6: for a non-empty finite buffer whose vertices all have the same
    value on one axis, min-max normalization returns normally, the
    denominator of that axis is replaced by 1.0, and every vertex of the
    result is 0 on that axis. *)
Theorem minmax_degenerate_axis (v : rarray) (ax : axis) (c : R) :
  v <> [] -> (forall w, In w v -> get ax w = c) ->
  exists normalized vmin vmax,
    normalize_minmax (Farr v) = Ok (normalized, MinMaxMeta vmin vmax) /\
    fsub (get ax vmax) (get ax vmin) = Fin 0 /\
    fix_zero (fsub (get ax vmax) (get ax vmin)) = Fin 1 /\
    List.length normalized = List.length v /\
    Forall (fun w => get ax w = Fin 0) normalized.
Proof.
  intros Hne Hc. destruct v as [| u rest]; [congruence |].
  rewrite normalize_minmax_fin. do 3 eexists. split; [reflexivity |].
  assert (Hmn : get ax (fold_left (v3map2 Rmin) rest u) = c).
  { apply col_fold_const; [| exact Hc]. unfold Rmin.
    now destruct (Rle_dec c c). }
  assert (Hmx : get ax (fold_left (v3map2 Rmax) rest u) = c).
  { apply col_fold_const; [| exact Hc]. unfold Rmax.
    now destruct (Rle_dec c c). }
  assert (Hz : fsub (get ax (Fvec (fold_left (v3map2 Rmax) rest u)))
                 (get ax (Fvec (fold_left (v3map2 Rmin) rest u))) = Fin 0).
  { rewrite !get_Fvec, Hmn, Hmx. simpl. f_equal. lra. }
  split; [exact Hz |]. split; [| split].
  - rewrite Hz. unfold fix_zero.
    now rewrite (proj2 (feq0_fin 0) eq_refl).
  - unfold Farr. now rewrite !length_map.
  - apply Forall_forall. intros w Hin. unfold Farr in Hin.
    rewrite map_map in Hin. apply in_map_iff in Hin.
    destruct Hin as [w0 [<- Hw0]].
    rewrite get_Fvec, !get_v3map2, Hmn, (Hc w0 Hw0).
    f_equal. unfold Rdiv, Rminus. rewrite Rplus_opp_r. apply Rmult_0_l.
Qed.

Lemma minmax_degenerate_axis_witness :
  exists normalized vmin vmax,
    normalize_minmax (Farr [(0, 5, 1); (2, 5, 3); (1, 5, 7)]) =
      Ok (normalized, MinMaxMeta vmin vmax) /\
    Forall (fun w => get AxY w = Fin 0) normalized.
Proof.
  destruct (minmax_degenerate_axis [(0, 5, 1); (2, 5, 3); (1, 5, 7)] AxY 5)
    as [nz [vmin [vmax [Hn [_ [_ [_ Hz]]]]]]].
  - discriminate.
  - intros w [<- | [<- | [<- | []]]]; reflexivity.
  - exists nz, vmin, vmax. split; [exact Hn | exact Hz].
Defined.

(** ** The pipeline on well-formed input *)

Lemma dequantize_fin (q : iarray) (bins : Z) :
  bins <> 1%Z ->
  dequantize q bins = Farr (map (v3map (fun z => IZR z / IZR (bins - 1))) q).
Proof.
  intros Hb. rewrite dequantize_map. unfold Farr, Fvec. rewrite map_map.
  apply map_ext. intros v. rewrite v3map_map. apply v3map_ext.
  intros ax. now apply dequantize_comp_fin.
Qed.

Lemma quantize_length (c : Z) (a : farray) (bins : Z) :
  List.length (quantize c a bins) = List.length a.
Proof. rewrite quantize_map. apply length_map. Qed.

(** On a non-empty finite buffer, with any bin count other than 1, each
    method runs to the end: nothing is raised and the reconstruction has
    one vertex per input vertex. *)
Lemma run_method_ok (c : Z) (mt : string * normalize_fn * denormalize_fn)
  (v : rarray) (bins : Z) :
  In mt methods -> v <> [] -> bins <> 1%Z ->
  exists out,
    run_method c (snd (fst mt)) (snd mt) (Farr v) bins = Ok out /\
    List.length (out_recon out) = List.length v.
Proof.
  intros Hin Hne Hb. destruct v as [| u rest]; [congruence |].
  unfold run_method.
  destruct Hin as [<- | [<- | []]]; cbn [fst snd].
  - rewrite normalize_minmax_fin. unfold bind at 1. cbn [fst snd].
    rewrite dequantize_fin by exact Hb.
    rewrite denormalize_minmax_fin. unfold bind at 1.
    rewrite compute_errors_fin.
    + cbn [bind]. eexists. split; [reflexivity |]. cbn [out_recon].
      rewrite Farr_length, !length_map, quantize_length, Farr_length.
      now rewrite length_map.
    + rewrite !length_map, quantize_length, Farr_length.
      now rewrite length_map.
    + discriminate.
  - rewrite normalize_unit_sphere_fin. unfold bind at 1. cbn [fst snd].
    rewrite dequantize_fin by exact Hb.
    rewrite denormalize_unit_sphere_fin. unfold bind at 1.
    rewrite compute_errors_fin.
    + cbn [bind]. eexists. split; [reflexivity |]. cbn [out_recon].
      rewrite Farr_length, !length_map, quantize_length, Farr_length.
      now rewrite !length_map.
    + rewrite !length_map, quantize_length, Farr_length.
      now rewrite !length_map.
    + discriminate.
Qed.

(** * Further properties of the pipeline *)

(** ** The range of the normalized buffers *)

Lemma minmax_comp_range (x mn mx : R) :
  mn <= x <= mx -> 0 <= (x - mn) / rfix_zero (mx - mn) <= 1.
Proof.
  intros H. unfold rfix_zero. destruct (Req_EM_T (mx - mn) 0) as [E | N].
  - replace (x - mn) with 0 by lra. lra.
  - assert (Hd : 0 < mx - mn) by lra.
    assert (Hi : 0 < / (mx - mn)) by now apply Rinv_0_lt_compat.
    unfold Rdiv. split.
    + apply Rmult_le_pos; lra.
    + rewrite <- (Rinv_r (mx - mn)) by exact N.
      apply Rmult_le_compat_r; lra.
Qed.

(** X1: Min-max normalization of a non-empty finite buffer returns finite
    values of [0,1], one vertex per input vertex. *)
Theorem normalize_minmax_in_unit (v : rarray) :
  v <> [] ->
  exists nz m,
    normalize_minmax (Farr v) = Ok (Farr nz, m) /\
    List.length nz = List.length v /\
    in_unit nz.
Proof.
  intros Hne. destruct v as [| u rest]; [congruence |].
  rewrite normalize_minmax_fin. do 2 eexists. split; [reflexivity |].
  split; [apply length_map |].
  apply Forall_forall. intros w Hin. apply in_map_iff in Hin.
  destruct Hin as [w0 [<- Hw0]]. intros ax.
  rewrite !get_v3map2, get_v3map, get_v3map2.
  apply minmax_comp_range. split.
  - now apply col_min_le.
  - now apply col_max_ge.
Qed.

Lemma normalize_minmax_in_unit_witness :
  exists nz m,
    normalize_minmax (Farr [(- 3, 0, 7); (5, 0, 2)]) = Ok (Farr nz, m) /\
    List.length nz = 2%nat /\
    in_unit nz.
Proof.
  apply (normalize_minmax_in_unit [(- 3, 0, 7); (5, 0, 2)]). discriminate.
Defined.

Lemma Rabs_le_rnorm (ax : axis) (w : rvec) : Rabs (get ax w) <= rnorm w.
Proof.
  destruct w as [[x y] z]. unfold rnorm.
  rewrite <- sqrt_Rsqr_abs. apply sqrt_le_1_alt. unfold Rsqr.
  destruct ax; simpl; nra.
Qed.

Lemma rnorm_nonneg (w : rvec) : 0 <= rnorm w.
Proof. destruct w as [[x y] z]. apply sqrt_pos. Qed.

Lemma sphere_comp_range (x m : R) :
  Rabs x <= m -> 0 <= (x / rfix_zero m + 1) / 2 <= 1.
Proof.
  intros H. pose proof (Rabs_pos x) as Hp.
  assert (Hx : - m <= x <= m)
    by (unfold Rabs in H; destruct (Rcase_abs x); lra).
  unfold rfix_zero. destruct (Req_EM_T m 0) as [E | N].
  - replace x with 0 by lra. lra.
  - assert (Hm : 0 < m) by lra.
    assert (Hi : 0 < / m) by now apply Rinv_0_lt_compat.
    assert (Hq : - 1 <= x / m <= 1).
    { unfold Rdiv. split.
      - replace (- 1) with (- m * / m) by (field; lra).
        apply Rmult_le_compat_r; lra.
      - rewrite <- (Rinv_r m) by exact N.
        apply Rmult_le_compat_r; lra. }
    lra.
Qed.

(** X2: Unit-sphere normalization of a non-empty finite buffer returns finite
    values of [0,1], one vertex per input vertex. *)
Theorem normalize_unit_sphere_in_unit (v : rarray) :
  v <> [] ->
  exists nz m,
    normalize_unit_sphere (Farr v) = Ok (Farr nz, m) /\
    List.length nz = List.length v /\
    in_unit nz.
Proof.
  intros Hne. destruct v as [| u rest]; [congruence |].
  rewrite normalize_unit_sphere_fin. do 2 eexists. split; [reflexivity |].
  split; [now rewrite !length_map |].
  set (c := rmean0 (u :: rest)).
  set (sh := map (fun w => v3map2 Rminus w c) (u :: rest)).
  apply Forall_forall. intros w Hin. apply in_map_iff in Hin.
  destruct Hin as [s [<- Hs]]. intros ax. rewrite get_v3map.
  apply sphere_comp_range.
  apply Rle_trans with (rnorm s); [apply Rabs_le_rnorm |].
  apply fold_left_Rmax_ge.
  change (In (rnorm s) (map rnorm sh)). now apply in_map.
Qed.

Lemma normalize_unit_sphere_in_unit_witness :
  exists nz m,
    normalize_unit_sphere (Farr [(- 3, 0, 7); (5, 0, 2)]) = Ok (Farr nz, m) /\
    List.length nz = 2%nat /\
    in_unit nz.
Proof.
  apply (normalize_unit_sphere_in_unit [(- 3, 0, 7); (5, 0, 2)]). discriminate.
Defined.

(** ** Order, saturation and idempotence of the quantizer *)

Lemma Forall2_map_both {A B C : Type} (P : B -> C -> Prop)
  (f : A -> B) (g : A -> C) (l : list A) :
  (forall x, In x l -> P (f x) (g x)) -> Forall2 P (map f l) (map g l).
Proof.
  induction l as [| x l IH]; intros H; simpl; constructor.
  - apply H. now left.
  - apply IH. intros y Hy. apply H. now right.
Qed.

Lemma Forall2_map_maps {A B C D : Type} (P : A -> B -> Prop)
  (Q : C -> D -> Prop) (f : A -> C) (g : B -> D) (l : list A) (l' : list B) :
  (forall x y, P x y -> Q (f x) (g y)) ->
  Forall2 P l l' -> Forall2 Q (map f l) (map g l').
Proof.
  intros H HP. induction HP; simpl; constructor; auto.
Qed.

Lemma quantize_fin (c : Z) (a : rarray) (bins : Z) :
  quantize c (Farr a) bins = map (v3map (rquant bins)) a.
Proof.
  rewrite quantize_map. unfold Farr, Fvec. rewrite map_map.
  apply map_ext. intros v. rewrite v3map_map. apply v3map_ext.
  intros ax. apply quantize_comp_fin.
Qed.

Lemma np_clip_monotone (q q' lo hi : Z) :
  (q <= q')%Z -> (np_clip q lo hi <= np_clip q' lo hi)%Z.
Proof. unfold np_clip. lia. Qed.

Lemma np_clip_reversed (q hi : Z) : (hi < 0)%Z -> np_clip q 0 hi = hi.
Proof. unfold np_clip. lia. Qed.

Lemma rquant_monotone (bins : Z) (x y : R) :
  x <= y -> (rquant bins x <= rquant bins y)%Z.
Proof.
  intros Hxy. unfold rquant.
  destruct (Z_lt_le_dec (bins - 1) 0) as [Hneg | Hpos].
  - rewrite !np_clip_reversed by exact Hneg. lia.
  - apply np_clip_monotone, Zfloor_le.
    apply Rmult_le_compat_r; [| exact Hxy].
    now apply IZR_le in Hpos.
Qed.

Lemma rquant_range (bins : Z) (x : R) :
  (2 <= bins)%Z -> (0 <= rquant bins x <= bins - 1)%Z.
Proof. intros H. apply np_clip_range. lia. Qed.

Lemma rcodec_monotone (bins : Z) (x y : R) :
  (2 <= bins)%Z -> x <= y -> rcodec bins x <= rcodec bins y.
Proof.
  intros Hb Hxy. unfold rcodec, Rdiv.
  assert (Hn : 0 < IZR (bins - 1)) by (apply IZR_lt; lia).
  apply Rmult_le_compat_r.
  - apply Rlt_le. now apply Rinv_0_lt_compat.
  - apply IZR_le. now apply rquant_monotone.
Qed.

Lemma codec_fin (c : Z) (a : rarray) (bins : Z) :
  bins <> 1%Z ->
  dequantize (quantize c (Farr a) bins) bins =
  Farr (map (v3map (rcodec bins)) a).
Proof.
  intros Hb. rewrite quantize_fin, dequantize_fin by exact Hb.
  rewrite map_map. f_equal. apply map_ext. intros v.
  now rewrite v3map_map.
Qed.

(** X6: on finite buffers whose scaled floors fit in int64, [quantize]
    preserves the order of the values, for every bin count; for bins >= 2
    so does [dequantize] after it. *)
Theorem quantizer_monotone (c bins : Z) (a b : rarray) :
  castable bins a -> castable bins b ->
  Forall2 (v3rel Rle) a b ->
  Forall2 (v3rel Z.le) (quantize c (Farr a) bins) (quantize c (Farr b) bins) /\
  ((2 <= bins)%Z ->
   Forall2 (v3rel fle)
     (dequantize (quantize c (Farr a) bins) bins)
     (dequantize (quantize c (Farr b) bins) bins)).
Proof.
  intros _ _ Hab. split.
  - rewrite !quantize_fin.
    apply (Forall2_map_maps (v3rel Rle)); [| exact Hab].
    intros u w Huw ax. rewrite !get_v3map. apply rquant_monotone, Huw.
  - intros Hb. rewrite !codec_fin by lia. unfold Farr. rewrite !map_map.
    apply (Forall2_map_maps (v3rel Rle)); [| exact Hab].
    intros u w Huw ax. rewrite !get_Fvec, !get_v3map. simpl.
    apply rcodec_monotone; [exact Hb | apply Huw].
Qed.

Lemma quantizer_monotone_witness :
  Forall2 (v3rel Z.le)
    (quantize 0 (Farr [(0, 1 / 4, 1 / 2)]) 8)
    (quantize 0 (Farr [(1 / 8, 1 / 2, 2)]) 8).
Proof.
  apply (quantizer_monotone 0 8 [(0, 1 / 4, 1 / 2)] [(1 / 8, 1 / 2, 2)]).
  - apply Forall_cons; [| apply Forall_nil]. intros ax.
    apply (int64_range_Zfloor _ 0 100); try lia. destruct ax; simpl; lra.
  - apply Forall_cons; [| apply Forall_nil]. intros ax.
    apply (int64_range_Zfloor _ 0 100); try lia. destruct ax; simpl; lra.
  - constructor; [| constructor]. intros ax. destruct ax; simpl; lra.
Defined.

Lemma dequantize_comp_unit (bins q : Z) :
  (2 <= bins)%Z -> (0 <= q <= bins - 1)%Z ->
  funit (dequantize_comp bins q).
Proof.
  intros Hb Hq. rewrite dequantize_comp_fin by lia. simpl.
  assert (Hn : 0 < IZR (bins - 1)) by (apply IZR_lt; lia).
  assert (Hi : 0 < / IZR (bins - 1)) by now apply Rinv_0_lt_compat.
  unfold Rdiv. split.
  - apply Rmult_le_pos; [apply IZR_le; lia | lra].
  - rewrite <- (Rinv_r (IZR (bins - 1))) by lra.
    apply Rmult_le_compat_r; [lra | apply IZR_le; lia].
Qed.

Lemma rquant_low (bins : Z) (x : R) :
  (2 <= bins)%Z -> x <= 0 -> rquant bins x = 0%Z.
Proof.
  intros Hb Hx. unfold rquant, np_clip.
  assert (Hn : 0 < IZR (bins - 1)) by (apply IZR_lt; lia).
  assert (H : (Zfloor (x * IZR (bins - 1)) <= Zfloor 0)%Z)
    by (apply Zfloor_le; nra).
  change 0 with (IZR 0) in H. rewrite ZfloorZ in H. lia.
Qed.

Lemma rquant_high (bins : Z) (x : R) :
  (2 <= bins)%Z -> 1 <= x -> rquant bins x = (bins - 1)%Z.
Proof.
  intros Hb Hx. unfold rquant, np_clip.
  assert (Hn : 0 < IZR (bins - 1)) by (apply IZR_lt; lia).
  assert (H : (Zfloor (IZR (bins - 1)) <= Zfloor (x * IZR (bins - 1)))%Z)
    by (apply Zfloor_le; nra).
  rewrite ZfloorZ in H. lia.
Qed.

(** X7: For bins >= 2 the decoded buffer lies in [0,1] whatever the input
    (finite or not); on a finite buffer whose scaled floors fit in int64, a
    component at or below 0 decodes to exactly 0 and one at or above 1 to
    exactly 1. *)
Theorem codec_saturates (c bins : Z) :
  (2 <= bins)%Z ->
  (forall a : farray,
      Forall (fun v => forall ax, funit (get ax v))
        (dequantize (quantize c a bins) bins)) /\
  (forall a : rarray,
      castable bins a ->
      Forall2 (v3rel (fun x d => (x <= 0 -> d = Fin 0) /\ (1 <= x -> d = Fin 1)))
        a (dequantize (quantize c (Farr a) bins) bins)).
Proof.
  intros Hb. split.
  - intros a. rewrite quantize_map, dequantize_map, map_map.
    apply Forall_forall. intros v Hin. apply in_map_iff in Hin.
    destruct Hin as [u [<- _]]. intros ax. rewrite !get_v3map.
    apply dequantize_comp_unit; [exact Hb |].
    now apply quantize_comp_range.
  - intros a _. rewrite codec_fin by lia. unfold Farr. rewrite map_map.
    rewrite <- (map_id a) at 1. apply Forall2_map_both.
    intros v _ ax. rewrite get_Fvec, get_v3map. unfold rcodec.
    assert (Hn : IZR (bins - 1) <> 0)
      by (intros E; apply eq_IZR in E; lia).
    split; intros Hx.
    + rewrite rquant_low by assumption. f_equal. unfold Rdiv. apply Rmult_0_l.
    + rewrite rquant_high by assumption. f_equal. now apply Rinv_r.
Qed.

Lemma codec_saturates_witness :
  Forall (fun v => forall ax, funit (get ax v))
    (dequantize (quantize 0 [(Fin (- 2), NaN, PInf)] 16) 16) /\
  Forall2 (v3rel (fun x d => (x <= 0 -> d = Fin 0) /\ (1 <= x -> d = Fin 1)))
    [(- 2, 1 / 2, 3)] (dequantize (quantize 0 (Farr [(- 2, 1 / 2, 3)]) 16) 16).
Proof.
  destruct (codec_saturates 0 16) as [Hunit Hsat]; [lia |].
  split; [apply Hunit |]. apply Hsat.
  apply Forall_cons; [| apply Forall_nil]. intros ax.
  apply (int64_range_Zfloor _ (- 100) 100); try lia. destruct ax; simpl; lra.
Defined.

(** X8: For bins >= 2, quantizing and dequantizing a second time changes
    nothing, whatever the input. *)
Theorem codec_idempotent (c bins : Z) (a : farray) :
  (2 <= bins)%Z ->
  dequantize (quantize c (dequantize (quantize c a bins) bins) bins) bins =
  dequantize (quantize c a bins) bins.
Proof.
  intros Hb. rewrite !quantize_map, !dequantize_map, !map_map.
  apply map_ext. intros v. rewrite !v3map_map. apply v3map_ext.
  intros ax. f_equal. apply requantize_comp; [exact Hb |].
  now apply quantize_comp_range.
Qed.

Lemma codec_idempotent_witness :
  dequantize
    (quantize 0 (dequantize (quantize 0 [(Fin (1 / 3), Fin 5, NaN)] 4) 4) 4) 4 =
  dequantize (quantize 0 [(Fin (1 / 3), Fin 5, NaN)] 4) 4.
Proof.
  apply (codec_idempotent 0 4 [(Fin (1 / 3), Fin 5, NaN)]). lia.
Defined.

(** X9: With a bin count of 0 or less the clip bounds are reversed
    ([0 > bins - 1]): every component is quantized to the negative number
    bins - 1, whatever the input, and dequantized to exactly 1. *)
Theorem quantize_nonpositive_bins (c bins : Z) (a : farray) :
  (bins <= 0)%Z ->
  quantize c a bins =
    map (fun _ => ((bins - 1)%Z, (bins - 1)%Z, (bins - 1)%Z)) a /\
  dequantize (quantize c a bins) bins = map (fun _ => (Fin 1, Fin 1, Fin 1)) a.
Proof.
  intros Hb.
  assert (Hq : quantize c a bins =
               map (fun _ => ((bins - 1)%Z, (bins - 1)%Z, (bins - 1)%Z)) a).
  { rewrite quantize_map. apply map_ext. intros [[x y] z].
    unfold v3map, quantize_comp. now rewrite !np_clip_reversed by lia. }
  split; [exact Hq |].
  rewrite Hq, dequantize_map, map_map. apply map_ext. intros _.
  unfold v3map. rewrite dequantize_comp_fin by lia.
  assert (E : IZR (bins - 1) / IZR (bins - 1) = 1).
  { apply Rinv_r. intros E. apply eq_IZR in E. lia. }
  now rewrite E.
Qed.

Lemma quantize_nonpositive_bins_witness :
  quantize 0 [(Fin (1 / 2), Fin 0, Fin 1)] 0 = [((0 - 1)%Z, (0 - 1)%Z, (0 - 1)%Z)] /\
  dequantize (quantize 0 [(Fin (1 / 2), Fin 0, Fin 1)] 0) 0 =
    [(Fin 1, Fin 1, Fin 1)].
Proof.
  apply (quantize_nonpositive_bins 0 0 [(Fin (1 / 2), Fin 0, Fin 1)]). lia.
Defined.

(** ** What the error report measures *)

Lemma Rsum_nonneg (l : list R) : Forall (fun d => 0 <= d) l -> 0 <= Rsum l.
Proof.
  induction 1 as [| d l Hd _ IH]; simpl; lra.
Qed.

Lemma Rsum_zero (l : list R) :
  Forall (fun d => 0 <= d) l -> Rsum l = 0 -> Forall (fun d => d = 0) l.
Proof.
  induction 1 as [| d l Hd Hl IH]; intros Hs; constructor.
  - simpl in Hs. pose proof (Rsum_nonneg l Hl). lra.
  - apply IH. simpl in Hs. pose proof (Rsum_nonneg l Hl). lra.
Qed.

Lemma Rsum_all_zero (l : list R) : Forall (fun d => d = 0) l -> Rsum l = 0.
Proof.
  induction 1 as [| d l Hd _ IH]; simpl; lra.
Qed.

Lemma Rmean_nonneg (l : list R) :
  l <> [] -> Forall (fun d => 0 <= d) l -> 0 <= Rmean l.
Proof.
  intros Hne Hl. unfold Rmean, Rdiv. apply Rmult_le_pos.
  - now apply Rsum_nonneg.
  - apply Rlt_le, Rinv_0_lt_compat.
    destruct l; [congruence |]. apply lt_0_INR. simpl. lia.
Qed.

Lemma Rmean_zero_iff (l : list R) :
  l <> [] -> Forall (fun d => 0 <= d) l ->
  (Rmean l = 0 <-> Forall (fun d => d = 0) l).
Proof.
  intros Hne Hl. pose proof (INR_length_neq0 l Hne) as Hn. unfold Rmean. split.
  - intros H. apply Rsum_zero; [exact Hl |].
    apply Rmult_eq_reg_r with (/ INR (List.length l)).
    + unfold Rdiv in H. rewrite H. ring.
    + now apply Rinv_neq_0_compat.
  - intros H. rewrite (Rsum_all_zero l H). unfold Rdiv. ring.
Qed.

Lemma diff_col_length (ax : axis) (o r : rarray) :
  List.length o = List.length r ->
  List.length (diff_col ax o r) = List.length o.
Proof.
  intros H. unfold diff_col. rewrite length_map, length_combine, <- H.
  apply Nat.min_id.
Qed.

Lemma diff_col_neq_nil (ax : axis) (o r : rarray) :
  List.length o = List.length r -> o <> [] -> diff_col ax o r <> [].
Proof.
  intros H Hne E. apply Hne, length_zero_iff_nil.
  rewrite <- (diff_col_length ax o r H), E. reflexivity.
Qed.

(** Two buffers of one length are equal exactly when their differences
    vanish on the three axes. *)
Lemma diff_col_zero_iff (o r : rarray) :
  List.length o = List.length r ->
  ((forall ax, Forall (fun d => d = 0) (diff_col ax o r)) <-> o = r).
Proof.
  revert r. induction o as [| u o IH]; intros [| w r] Hlen;
    try discriminate.
  - split; [reflexivity | constructor].
  - simpl in Hlen. injection Hlen as Hlen. split.
    + intros H. f_equal.
      * apply vec3_ext. intros ax. specialize (H ax).
        unfold diff_col in H. simpl in H. inversion H as [| ? ? H0 _]. lra.
      * apply IH; [exact Hlen |]. intros ax. specialize (H ax).
        unfold diff_col in H. simpl in H. now inversion H.
    + intros E. injection E as -> ->. intros ax. unfold diff_col. simpl.
      constructor; [lra |]. now apply (proj2 (IH r Hlen)).
Qed.

Lemma Forall_map_sq (l : list R) : Forall (fun d => 0 <= d) (map (fun d => d * d) l).
Proof.
  apply Forall_forall. intros y Hy. apply in_map_iff in Hy.
  destruct Hy as [d [<- _]]. nra.
Qed.

Lemma Forall_map_abs (l : list R) : Forall (fun d => 0 <= d) (map Rabs l).
Proof.
  apply Forall_forall. intros y Hy. apply in_map_iff in Hy.
  destruct Hy as [d [<- _]]. apply Rabs_pos.
Qed.

Lemma Forall_zero_map (g : R -> R) (l : list R) :
  (forall d, g d = 0 <-> d = 0) ->
  (Forall (fun d => d = 0) (map g l) <-> Forall (fun d => d = 0) l).
Proof.
  intros Hg. rewrite !Forall_forall. split; intros H d Hd.
  - apply Hg, H. now apply in_map.
  - apply in_map_iff in Hd. destruct Hd as [x [<- Hx]]. apply Hg. now apply H.
Qed.

Lemma mse_axis_nonneg (ax : axis) (o r : rarray) :
  List.length o = List.length r -> o <> [] -> 0 <= mse_axis ax o r.
Proof.
  intros H Hne. apply Rmean_nonneg; [| apply Forall_map_sq].
  intros E. apply map_eq_nil in E. now apply (diff_col_neq_nil ax o r).
Qed.

Lemma mae_axis_nonneg (ax : axis) (o r : rarray) :
  List.length o = List.length r -> o <> [] -> 0 <= mae_axis ax o r.
Proof.
  intros H Hne. apply Rmean_nonneg; [| apply Forall_map_abs].
  intros E. apply map_eq_nil in E. now apply (diff_col_neq_nil ax o r).
Qed.

Lemma mse_axis_zero_iff (ax : axis) (o r : rarray) :
  List.length o = List.length r -> o <> [] ->
  (mse_axis ax o r = 0 <-> Forall (fun d => d = 0) (diff_col ax o r)).
Proof.
  intros H Hne. unfold mse_axis. rewrite Rmean_zero_iff.
  - apply Forall_zero_map. intros d. split; intros Hd; nra.
  - intros E. apply map_eq_nil in E. now apply (diff_col_neq_nil ax o r).
  - apply Forall_map_sq.
Qed.

Lemma mae_axis_zero_iff (ax : axis) (o r : rarray) :
  List.length o = List.length r -> o <> [] ->
  (mae_axis ax o r = 0 <-> Forall (fun d => d = 0) (diff_col ax o r)).
Proof.
  intros H Hne. unfold mae_axis. rewrite Rmean_zero_iff.
  - apply Forall_zero_map. intros d. split; intros Hd.
    + destruct (Req_dec d 0) as [E | N]; [exact E |].
      now apply Rabs_no_R0 in N.
    + rewrite Hd. apply Rabs_R0.
  - intros E. apply map_eq_nil in E. now apply (diff_col_neq_nil ax o r).
  - apply Forall_map_abs.
Qed.

Lemma mean3_zero_iff (f : axis -> R) :
  (forall ax, 0 <= f ax) ->
  (Rmean [f AxX; f AxY; f AxZ] = 0 <-> forall ax, f ax = 0).
Proof.
  intros Hf. pose proof (Hf AxX). pose proof (Hf AxY). pose proof (Hf AxZ).
  unfold Rmean. simpl. split.
  - intros Hz ax. destruct ax; lra.
  - intros Hz. rewrite (Hz AxX), (Hz AxY), (Hz AxZ). lra.
Qed.

(** X10: On finite buffers of one length N >= 1 the scalars mse and mae are
    finite and not negative, and each of them is 0 exactly when the two
    buffers are equal. *)
Theorem compute_errors_zero_iff (o r : rarray) :
  List.length o = List.length r -> o <> [] ->
  exists rep e_mse e_mae,
    compute_errors (Farr o) (Farr r) = Ok rep /\
    mse rep = Fin e_mse /\ mae rep = Fin e_mae /\
    0 <= e_mse /\ 0 <= e_mae /\
    (e_mse = 0 <-> o = r) /\ (e_mae = 0 <-> o = r).
Proof.
  intros Hlen Hne. rewrite compute_errors_fin by assumption.
  do 3 eexists. split; [reflexivity |]. simpl mse. simpl mae.
  split; [reflexivity |]. split; [reflexivity |].
  pose proof (fun ax => mse_axis_nonneg ax o r Hlen Hne) as Hs.
  pose proof (fun ax => mae_axis_nonneg ax o r Hlen Hne) as Ha.
  repeat split.
  - pose proof (Hs AxX). pose proof (Hs AxY). pose proof (Hs AxZ).
    unfold Rmean. simpl. lra.
  - pose proof (Ha AxX). pose proof (Ha AxY). pose proof (Ha AxZ).
    unfold Rmean. simpl. lra.
  - intros H. apply (diff_col_zero_iff o r Hlen). intros ax.
    apply mse_axis_zero_iff; try assumption.
    now apply (proj1 (mean3_zero_iff (fun ax => mse_axis ax o r) Hs)).
  - intros E. apply (mean3_zero_iff (fun ax => mse_axis ax o r) Hs).
    intros ax. apply mse_axis_zero_iff; try assumption.
    now apply (diff_col_zero_iff o r Hlen).
  - intros H. apply (diff_col_zero_iff o r Hlen). intros ax.
    apply mae_axis_zero_iff; try assumption.
    now apply (proj1 (mean3_zero_iff (fun ax => mae_axis ax o r) Ha)).
  - intros E. apply (mean3_zero_iff (fun ax => mae_axis ax o r) Ha).
    intros ax. apply mae_axis_zero_iff; try assumption.
    now apply (diff_col_zero_iff o r Hlen).
Qed.

Lemma compute_errors_zero_iff_witness :
  exists rep,
    compute_errors (Farr [(1, 2, 3); (4, 5, 6)]) (Farr [(1, 2, 3); (4, 5, 6)])
      = Ok rep /\
    mse rep = Fin 0 /\ mae rep = Fin 0.
Proof.
  destruct (compute_errors_zero_iff
              [(1, 2, 3); (4, 5, 6)] [(1, 2, 3); (4, 5, 6)])
    as [rep [e [e' [H [Hm [Ha [_ [_ [Hz Hz']]]]]]]]].
  - reflexivity.
  - discriminate.
  - exists rep. split; [exact H |].
    rewrite Hm, Ha, (proj2 Hz eq_refl), (proj2 Hz' eq_refl). now split.
Defined.

Lemma Rsum_cross (l : list R) (a : R) :
  2 * a * Rsum l <=
  Rsum (map (fun d => d * d) l) + INR (List.length l) * (a * a).
Proof.
  induction l as [| x l IH].
  - simpl. nra.
  - cbn [map List.length Rsum fold_right]. fold (Rsum l).
    fold (Rsum (map (fun d => d * d) l)). rewrite S_INR.
    pose proof (Rle_0_sqr (x - a)) as Hsq. unfold Rsqr in Hsq. nra.
Qed.

(** Cauchy-Schwarz for a sum against ones. *)
Lemma Rsum_sq_le (l : list R) :
  Rsum l * Rsum l <= INR (List.length l) * Rsum (map (fun d => d * d) l).
Proof.
  induction l as [| x l IH].
  - simpl. nra.
  - cbn [map List.length Rsum fold_right]. fold (Rsum l).
    fold (Rsum (map (fun d => d * d) l)). rewrite S_INR.
    pose proof (Rsum_cross l x). nra.
Qed.

Lemma Rmean_sq_le (l : list R) :
  l <> [] -> Rmean l * Rmean l <= Rmean (map (fun d => d * d) l).
Proof.
  intros Hne. unfold Rmean. rewrite length_map.
  assert (Hn : 0 < INR (List.length l)).
  { destruct l; [congruence |]. apply lt_0_INR. simpl. lia. }
  set (n := INR (List.length l)) in *.
  pose proof (Rsum_sq_le l) as H. fold n in H.
  assert (Hi : 0 < / n) by now apply Rinv_0_lt_compat.
  replace (Rsum l / n * (Rsum l / n)) with (Rsum l * Rsum l * (/ n * / n))
    by (unfold Rdiv; ring).
  replace (Rsum (map (fun d => d * d) l) / n)
    with (n * Rsum (map (fun d => d * d) l) * (/ n * / n))
    by (field; lra).
  apply Rmult_le_compat_r; [nra | exact H].
Qed.

Lemma mae_sq_le_mse_axis (ax : axis) (o r : rarray) :
  List.length o = List.length r -> o <> [] ->
  mae_axis ax o r * mae_axis ax o r <= mse_axis ax o r.
Proof.
  intros Hlen Hne. unfold mae_axis, mse_axis.
  eapply Rle_trans.
  - apply Rmean_sq_le. intros E. apply map_eq_nil in E.
    now apply (diff_col_neq_nil ax o r).
  - rewrite map_map. apply Req_le. f_equal. apply map_ext. intros d.
    fold (Rsqr (Rabs d)). rewrite <- Rsqr_abs. reflexivity.
Qed.

(** X11: On finite buffers of one length N >= 1 the square of the mean absolute
    error is at most the mean squared error, on each axis and for the two
    scalars: mae never exceeds the root of mse. *)
Theorem mae_squared_le_mse (o r : rarray) :
  List.length o = List.length r -> o <> [] ->
  exists rep,
    compute_errors (Farr o) (Farr r) = Ok rep /\
    v3rel (fun a s => match a, s with
                      | Fin x, Fin y => x * x <= y
                      | _, _ => False
                      end) (mae_per_axis rep) (mse_per_axis rep) /\
    match mae rep, mse rep with
    | Fin x, Fin y => x * x <= y
    | _, _ => False
    end.
Proof.
  intros Hlen Hne. rewrite compute_errors_fin by assumption.
  eexists. split; [reflexivity |].
  pose proof (fun ax => mae_sq_le_mse_axis ax o r Hlen Hne) as H.
  split.
  - intros ax. cbn [mae_per_axis mse_per_axis]. rewrite !get_Fvec.
    destruct ax; apply H.
  - cbn [mae mse]. unfold Rmean. simpl.
    pose proof (H AxX). pose proof (H AxY). pose proof (H AxZ).
    set (a := mae_axis AxX o r) in *. set (b := mae_axis AxY o r) in *.
    set (c := mae_axis AxZ o r) in *.
    pose proof (Rle_0_sqr (a - b)). pose proof (Rle_0_sqr (b - c)).
    pose proof (Rle_0_sqr (a - c)). unfold Rsqr in *. nra.
Qed.

Lemma mae_squared_le_mse_witness :
  exists rep,
    compute_errors (Farr [(0, 0, 0); (2, 0, 0)]) (Farr [(0, 0, 0); (0, 0, 0)])
      = Ok rep /\
    match mae rep, mse rep with
    | Fin x, Fin y => x * x <= y
    | _, _ => False
    end.
Proof.
  destruct (mae_squared_le_mse [(0, 0, 0); (2, 0, 0)] [(0, 0, 0); (0, 0, 0)])
    as [rep [H [_ Hs]]].
  - reflexivity.
  - discriminate.
  - exists rep. split; [exact H | exact Hs].
Defined.

(** ** Symmetry of the error report *)

Lemma fsub_swap (a b : float64) : fsub b a = fneg (fsub a b).
Proof.
  destruct a, b; simpl; try reflexivity. f_equal. lra.
Qed.

Lemma fsquare_fneg (a : float64) : fsquare (fneg a) = fsquare a.
Proof.
  destruct a; simpl; try reflexivity. f_equal. ring.
Qed.

Lemma fabs_fneg (a : float64) : fabs (fneg a) = fabs a.
Proof.
  destruct a; simpl; try reflexivity. f_equal. apply Rabs_Ropp.
Qed.

Lemma v3map2_fsub_swap (u w : fvec) :
  v3map2 fsub w u = v3map fneg (v3map2 fsub u w).
Proof.
  destruct u as [[x y] z], w as [[x' y'] z']. simpl.
  now rewrite (fsub_swap x x'), (fsub_swap y y'), (fsub_swap z z').
Qed.

Lemma combine_swap_map {A B : Type} (f : A -> A -> B) (a b : list A) :
  map (fun p => f (snd p) (fst p)) (combine a b) =
  map (fun p => f (fst p) (snd p)) (combine b a).
Proof.
  revert b. induction a as [| x a IH]; intros [| y b]; simpl;
    try reflexivity.
  now rewrite IH.
Qed.

(** Swapping the operands of the broadcast difference negates it. *)
Lemma broadcast2_fsub_swap (a b : farray) :
  broadcast2 fsub b a =
  match broadcast2 fsub a b with
  | Ok d => Ok (arr_neg d)
  | Raise e => Raise e
  end.
Proof.
  destruct (Nat.eq_dec (List.length a) 1) as [Ha | Ha].
  { destruct a as [| u [| u' a]]; try discriminate.
    rewrite broadcast2_stretch_left, broadcast2_stretch_right.
    f_equal. unfold arr_neg, arr_row. rewrite map_map.
    apply map_ext. intros v. apply v3map2_fsub_swap. }
  destruct (Nat.eq_dec (List.length b) 1) as [Hb | Hb].
  { destruct b as [| w [| w' b]]; try discriminate.
    rewrite broadcast2_stretch_left, broadcast2_stretch_right.
    f_equal. unfold arr_neg, arr_row. rewrite map_map.
    apply map_ext. intros v. apply v3map2_fsub_swap. }
  destruct (Nat.eq_dec (List.length a) (List.length b)) as [E | N].
  - rewrite !broadcast2_same_length by congruence.
    f_equal. unfold arr_neg. rewrite map_map.
    transitivity (map (fun p => v3map2 fsub (snd p) (fst p)) (combine a b)).
    + symmetry. apply (combine_swap_map (v3map2 fsub) a b).
    + apply map_ext. intros [u w]. apply v3map2_fsub_swap.
  - rewrite !broadcast2_mismatch by congruence. reflexivity.
Qed.

(** X12: [compute_errors] does not depend on the order of its two arguments:
    for any two arrays, finite or not and of any lengths, it returns the
    same report, or raises the same exception, when they are swapped. *)
Theorem compute_errors_symmetric (o r : farray) :
  compute_errors r o = compute_errors o r.
Proof.
  unfold compute_errors. rewrite (broadcast2_fsub_swap o r).
  destruct (broadcast2 fsub o r) as [d | e]; [| reflexivity].
  unfold bind, arr_neg. rewrite !map_map.
  assert (Hs : map (fun v => v3map fsquare (v3map fneg v)) d =
               map (v3map fsquare) d).
  { apply map_ext. intros v. rewrite v3map_map. apply v3map_ext.
    intros ax. apply fsquare_fneg. }
  assert (Ha : map (fun v => v3map fabs (v3map fneg v)) d =
               map (v3map fabs) d).
  { apply map_ext. intros v. rewrite v3map_map. apply v3map_ext.
    intros ax. apply fabs_fneg. }
  now rewrite Hs, Ha.
Qed.

(** ** Mesh statistics *)

Lemma Rsum_bounds (l : list R) (lo hi : R) :
  Forall (fun x => lo <= x <= hi) l ->
  INR (List.length l) * lo <= Rsum l <= INR (List.length l) * hi.
Proof.
  induction 1 as [| x l Hx _ IH].
  - simpl. lra.
  - cbn [List.length Rsum fold_right]. fold (Rsum l). rewrite S_INR. lra.
Qed.

Lemma Rmean_bounds (l : list R) (lo hi : R) :
  l <> [] -> Forall (fun x => lo <= x <= hi) l -> lo <= Rmean l <= hi.
Proof.
  intros Hne Hl. pose proof (Rsum_bounds l lo hi Hl) as [H1 H2].
  assert (Hn : 0 < INR (List.length l)).
  { destruct l; [congruence |]. apply lt_0_INR. simpl. lia. }
  unfold Rmean. set (n := INR (List.length l)) in *.
  assert (Hi : 0 < / n) by now apply Rinv_0_lt_compat.
  unfold Rdiv. split.
  - replace lo with (n * lo * / n) by (field; lra).
    apply Rmult_le_compat_r; lra.
  - replace hi with (n * hi * / n) by (field; lra).
    apply Rmult_le_compat_r; lra.
Qed.

Lemma arr_std0_fin (v : rarray) :
  v <> [] ->
  exists sd, arr_std0 (Farr v) = Fvec sd /\ forall ax, 0 <= get ax sd.
Proof.
  intros Hne. unfold arr_std0. rewrite arr_mean0_fin by exact Hne.
  rewrite (arr_row_fin fsub Rminus) by reflexivity.
  set (dev := map (fun w => v3map2 Rminus w (rmean0 v)) v).
  assert (Hsq : map (v3map (fun d => fsquare (fabs d))) (Farr dev) =
                Farr (map (v3map (fun d => Rabs d * Rabs d)) dev)).
  { unfold Farr. rewrite !map_map. apply map_ext. now intros [[x y] z]. }
  rewrite Hsq.
  assert (Hd : map (v3map (fun d => Rabs d * Rabs d)) dev <> []).
  { intros E. apply map_eq_nil in E. unfold dev in E.
    apply map_eq_nil in E. contradiction. }
  rewrite arr_mean0_fin by exact Hd.
  set (m := rmean0 (map (v3map (fun d => Rabs d * Rabs d)) dev)).
  assert (Hm : forall ax, 0 <= get ax m).
  { intros ax. unfold m. rewrite get_rmean0. apply Rmean_nonneg.
    - intros E. apply map_eq_nil in E. contradiction.
    - apply Forall_forall. intros y Hy. apply in_map_iff in Hy.
      destruct Hy as [w [<- Hw]]. apply in_map_iff in Hw.
      destruct Hw as [w0 [<- _]]. rewrite get_v3map.
      apply Rmult_le_pos; apply Rabs_pos. }
  exists (v3map sqrt m). split.
  - unfold Fvec. rewrite !v3map_map. apply v3map_ext. intros ax. simpl.
    destruct (Rlt_dec (get ax m) 0) as [H | _]; [| reflexivity].
    specialize (Hm ax). lra.
  - intros ax. rewrite get_v3map. apply sqrt_pos.
Qed.

(** X14: under exact arithmetic, on a non-empty finite buffer [mesh_stats]
    returns normally: the vertex count is N, the minimum and maximum bound
    every vertex on every axis, the mean lies between them, and the
    standard deviation is finite and not negative. *)
Theorem mesh_stats_bounds (v : rarray) :
  v <> [] ->
  exists mn mx mean sd,
    mesh_stats (Farr v) =
      Ok (mkStats (List.length v) (Fvec mn) (Fvec mx) (Fvec mean) (Fvec sd)) /\
    (forall w, In w v -> forall ax, get ax mn <= get ax w <= get ax mx) /\
    (forall ax, get ax mn <= get ax mean <= get ax mx) /\
    (forall ax, 0 <= get ax sd).
Proof.
  intros Hne. destruct (arr_std0_fin v Hne) as [sd [Hsd Hpos]].
  destruct v as [| u rest]; [congruence |].
  set (v := u :: rest) in *.
  exists (fold_left (v3map2 Rmin) rest u), (fold_left (v3map2 Rmax) rest u),
    (rmean0 v), sd.
  assert (Hb : forall w, In w v -> forall ax,
               get ax (fold_left (v3map2 Rmin) rest u) <= get ax w <=
               get ax (fold_left (v3map2 Rmax) rest u)).
  { intros w Hw ax. split; [now apply col_min_le | now apply col_max_ge]. }
  split; [| split; [exact Hb | split; [| exact Hpos]]].
  - unfold mesh_stats. unfold v at 1 2. rewrite arr_min0_fin, arr_max0_fin.
    unfold bind. fold v. rewrite Farr_length, arr_mean0_fin, Hsd by exact Hne.
    reflexivity.
  - intros ax. rewrite get_rmean0. apply Rmean_bounds.
    + intros E. apply map_eq_nil in E. contradiction.
    + apply Forall_forall. intros y Hy. apply in_map_iff in Hy.
      destruct Hy as [w [<- Hw]]. now apply Hb.
Qed.

Lemma mesh_stats_bounds_witness :
  exists st, mesh_stats (Farr [(0, 5, 1); (2, 5, 3); (1, 5, 7)]) = Ok st /\
             n_vertices st = 3%nat.
Proof.
  destruct (mesh_stats_bounds [(0, 5, 1); (2, 5, 3); (1, 5, 7)])
    as [mn [mx [mean [sd [H _]]]]].
  - discriminate.
  - eexists. split; [exact H | reflexivity].
Defined.

(** ** [process_mesh] on a loaded mesh *)

Lemma mesh_stats_ok (v : rarray) :
  v <> [] ->
  exists st, mesh_stats (Farr v) = Ok st /\ n_vertices st = List.length v.
Proof.
  intros Hne. destruct v as [| u rest]; [congruence |].
  unfold mesh_stats. rewrite arr_min0_fin, arr_max0_fin. unfold bind.
  eexists. split; [reflexivity |]. cbn [n_vertices]. apply Farr_length.
Qed.

(** X16: once a mesh is loaded and not flagged empty, with N >= 1 finite
    vertices and a bin count other than 1, the numeric steps of both
    methods return, min-max first: under exact arithmetic none of them
    raises, the statistics count N vertices and each reconstruction has N
    vertices.  (File writes and plots are outside the model.) *)
Theorem process_mesh_well_formed (c : Z) (m : mesh) (bins : Z) (v : rarray) :
  is_empty m = false -> mesh_vertices m = Farr v -> v <> [] -> bins <> 1%Z ->
  exists st o1 o2,
    process_mesh c m bins =
      Ok (Processed st [("minmax"%string, Ok o1);
                        ("unit_sphere"%string, Ok o2)]) /\
    n_vertices st = List.length v /\
    List.length (out_recon o1) = List.length v /\
    List.length (out_recon o2) = List.length v.
Proof.
  intros He Hv Hne Hb. unfold process_mesh. rewrite He, Hv.
  destruct (mesh_stats_ok v Hne) as [st [Hst Hcount]].
  rewrite Hst. unfold bind, methods. cbn [map].
  destruct (run_method_ok c ("minmax"%string, normalize_minmax,
                             denormalize_minmax) v bins)
    as [o1 [H1 L1]]; [now left | exact Hne | exact Hb |].
  destruct (run_method_ok c ("unit_sphere"%string, normalize_unit_sphere,
                             denormalize_unit_sphere) v bins)
    as [o2 [H2 L2]]; [now right; left | exact Hne | exact Hb |].
  cbn [fst snd] in H1, H2. rewrite H1, H2.
  do 3 eexists. split; [reflexivity |]. now repeat split.
Qed.

Lemma process_mesh_well_formed_witness :
  exists st o1 o2,
    process_mesh 0 (mkMesh false (Farr [(0, 0, 0); (1, 2, 3)]) None) 1024 =
      Ok (Processed st [("minmax"%string, Ok o1);
                        ("unit_sphere"%string, Ok o2)]) /\
    n_vertices st = 2%nat.
Proof.
  destruct (process_mesh_well_formed 0
              (mkMesh false (Farr [(0, 0, 0); (1, 2, 3)]) None) 1024
              [(0, 0, 0); (1, 2, 3)])
    as [st [o1 [o2 [H [Hn _]]]]].
  - reflexivity.
  - reflexivity.
  - discriminate.
  - lia.
  - exists st, o1, o2. split; [exact H | exact Hn].
Defined.

(** ** The shape of what the forward transforms return *)

Lemma normalize_minmax_shape (v : rarray) :
  v <> [] ->
  exists nz vmin vmax,
    normalize_minmax (Farr v) = Ok (Farr nz, MinMaxMeta vmin vmax) /\
    List.length nz = List.length v.
Proof.
  intros Hne. destruct v as [| u rest]; [congruence |].
  rewrite normalize_minmax_fin. do 3 eexists. split; [reflexivity |].
  apply length_map.
Qed.

Lemma normalize_unit_sphere_shape (v : rarray) :
  v <> [] ->
  exists nz centroid maxd,
    normalize_unit_sphere (Farr v) = Ok (Farr nz, SphereMeta centroid maxd) /\
    List.length nz = List.length v.
Proof.
  intros Hne. destruct v as [| u rest]; [congruence |].
  rewrite normalize_unit_sphere_fin. do 3 eexists. split; [reflexivity |].
  now rewrite !length_map.
Qed.

(** ** One bin: the numeric steps return nan *)

Lemma fold_left_fadd_nan {A : Type} (l : list A) :
  fold_left (v3map2 fadd) (map (fun _ => (NaN, NaN, NaN)) l) (NaN, NaN, NaN) =
  (NaN, NaN, NaN).
Proof. induction l as [| x l IH]; simpl; [reflexivity | exact IH]. Qed.

Lemma arr_mean0_nan {A : Type} (u : A) (l : list A) :
  arr_mean0 (map (fun _ => (NaN, NaN, NaN)) (u :: l)) = (NaN, NaN, NaN).
Proof.
  unfold arr_mean0, arr_sum0. cbn [map fold_left v3map2 fadd].
  now rewrite fold_left_fadd_nan.
Qed.

Lemma diff_nan (v : rarray) :
  broadcast2 fsub (Farr v) (map (fun _ => (NaN, NaN, NaN)) v) =
  Ok (map (fun _ => (NaN, NaN, NaN)) v).
Proof.
  rewrite broadcast2_same_length by (unfold Farr; now rewrite !length_map).
  f_equal. induction v as [| [[x y] z] v IH]; simpl; [reflexivity |].
  now rewrite IH.
Qed.

Lemma compute_errors_nan (v : rarray) :
  v <> [] ->
  compute_errors (Farr v) (map (fun _ => (NaN, NaN, NaN)) v) = Ok nan_report.
Proof.
  intros Hne. unfold compute_errors. rewrite diff_nan. unfold bind.
  rewrite !map_map. cbn [v3map fsquare fmul fabs].
  destruct v as [| u rest]; [congruence |].
  now rewrite !arr_mean0_nan.
Qed.

Lemma const_map_length {A B C : Type} (x : C) (l : list A) (l' : list B) :
  List.length l = List.length l' ->
  map (fun _ => x) l = map (fun _ => x) l'.
Proof.
  revert l'. induction l as [| a l IH]; intros [| b l'] H; simpl;
    try discriminate; [reflexivity |].
  f_equal. apply IH. now injection H.
Qed.

Lemma denormalize_minmax_nan {A : Type} (l : list A) (vmin vmax : fvec) :
  denormalize_minmax (map (fun _ => (NaN, NaN, NaN)) l)
    (MinMaxMeta vmin vmax) =
  Ok (map (fun _ => (NaN, NaN, NaN)) l).
Proof.
  unfold denormalize_minmax, arr_row. f_equal. rewrite !map_map.
  apply map_ext. intros _.
  destruct vmin as [[a b] d], vmax as [[a' b'] d']. reflexivity.
Qed.

Lemma denormalize_unit_sphere_nan {A : Type} (l : list A)
  (centroid : fvec) (maxd : float64) :
  denormalize_unit_sphere (map (fun _ => (NaN, NaN, NaN)) l)
    (SphereMeta centroid maxd) =
  Ok (map (fun _ => (NaN, NaN, NaN)) l).
Proof.
  unfold denormalize_unit_sphere, arr_row, arr_scalar. f_equal.
  rewrite !map_map. apply map_ext. intros _.
  destruct centroid as [[a b] d]. reflexivity.
Qed.

(** One method with one bin, given what its forward transform returns and
    that its inverse maps nan to nan. *)
Lemma run_method_one_bin (c : Z) (normalize : normalize_fn)
  (denormalize : denormalize_fn) (v nz : rarray) (m : meta) :
  v <> [] ->
  normalize (Farr v) = Ok (Farr nz, m) ->
  List.length nz = List.length v ->
  denormalize (map (fun _ => (NaN, NaN, NaN)) v) m =
    Ok (map (fun _ => (NaN, NaN, NaN)) v) ->
  run_method c normalize denormalize (Farr v) 1 =
  Ok (mkOutput (map (fun _ => (0, 0, 0)%Z) v)
        (map (fun _ => (NaN, NaN, NaN)) v) nan_report m).
Proof.
  intros Hne Hn Hlen Hd. unfold run_method. rewrite Hn. cbn [bind fst snd].
  destruct (bins_one_all_nan c (Farr nz)) as [Hq Hdq].
  rewrite Hdq, Hq.
  assert (L : List.length (Farr nz) = List.length v)
    by now rewrite Farr_length.
  rewrite (const_map_length (NaN, NaN, NaN) (Farr nz) v L).
  rewrite (const_map_length (0, 0, 0)%Z (Farr nz) v L).
  rewrite Hd. cbn [bind]. rewrite compute_errors_nan by exact Hne.
  reflexivity.
Qed.

(** X17: with bins = 1 the numeric steps of each method raise nothing on a
    non-empty finite buffer: the quantized array is 0 throughout, and the
    reconstruction and every field of the error report are nan.  (The
    plots that follow in the source receive these nan values; they are
    outside the model.) *)
Theorem one_bin_gives_nan_report (c : Z)
  (mt : string * normalize_fn * denormalize_fn) (v : rarray) :
  In mt methods -> v <> [] ->
  exists out,
    run_method c (snd (fst mt)) (snd mt) (Farr v) 1 = Ok out /\
    out_quant out = map (fun _ => (0, 0, 0)%Z) v /\
    out_recon out = map (fun _ => (NaN, NaN, NaN)) v /\
    out_errors out = nan_report.
Proof.
  intros Hin Hne.
  destruct Hin as [<- | [<- | []]]; cbn [fst snd].
  - destruct (normalize_minmax_shape v Hne) as [nz [vmin [vmax [Hn Hl]]]].
    eexists. split.
    + apply (run_method_one_bin c _ _ v nz _ Hne Hn Hl).
      apply denormalize_minmax_nan.
    + now repeat split.
  - destruct (normalize_unit_sphere_shape v Hne)
      as [nz [ctr [md [Hn Hl]]]].
    eexists. split.
    + apply (run_method_one_bin c _ _ v nz _ Hne Hn Hl).
      apply denormalize_unit_sphere_nan.
    + now repeat split.
Qed.

Lemma one_bin_gives_nan_report_witness :
  exists out,
    run_method 0 normalize_minmax denormalize_minmax
      (Farr [(0, 0, 0); (1, 2, 3)]) 1 = Ok out /\
    out_errors out = nan_report.
Proof.
  destruct (one_bin_gives_nan_report 0
              ("minmax"%string, normalize_minmax, denormalize_minmax)
              [(0, 0, 0); (1, 2, 3)])
    as [out [H [_ [_ He]]]].
  - left. reflexivity.
  - discriminate.
  - exists out. split; [exact H | exact He].
Defined.

(** ** Metadata of the other strategy *)

(** X5: The metadata of one strategy does not fit the inverse of the other:
    on any non-empty finite buffer, each forward transform returns
    metadata on which the other strategy's inverse raises KeyError. *)
Theorem crossed_meta_raises_key_error (v : rarray) :
  v <> [] ->
  (exists nz m, normalize_minmax (Farr v) = Ok (nz, m) /\
                denormalize_unit_sphere nz m = Raise KeyError) /\
  (exists nz m, normalize_unit_sphere (Farr v) = Ok (nz, m) /\
                denormalize_minmax nz m = Raise KeyError).
Proof.
  intros Hne. destruct v as [| u rest]; [congruence |]. split.
  - rewrite normalize_minmax_fin. do 2 eexists. split; reflexivity.
  - rewrite normalize_unit_sphere_fin. do 2 eexists. split; reflexivity.
Qed.

Lemma crossed_meta_raises_key_error_witness :
  exists nz m,
    normalize_minmax (Farr [(0, 0, 0); (1, 2, 3)]) = Ok (nz, m) /\
    denormalize_unit_sphere nz m = Raise KeyError.
Proof.
  apply (proj1 (crossed_meta_raises_key_error [(0, 0, 0); (1, 2, 3)]
                  ltac:(discriminate))).
Defined.

(** ** Where min-max normalization reaches 0 and 1 *)

Lemma fold_left_Rmin_in (l : list R) (x : R) : In (fold_left Rmin l x) (x :: l).
Proof.
  revert x. induction l as [| y l IH]; intros x; simpl; [now left |].
  destruct (IH (Rmin x y)) as [E | H].
  - unfold Rmin in E at 1. destruct (Rle_dec x y); [left | right; left];
      now rewrite <- E.
  - right. right. exact H.
Qed.

Lemma fold_left_Rmax_in (l : list R) (x : R) : In (fold_left Rmax l x) (x :: l).
Proof.
  revert x. induction l as [| y l IH]; intros x; simpl; [now left |].
  destruct (IH (Rmax x y)) as [E | H].
  - unfold Rmax in E at 1. destruct (Rle_dec x y); [right; left | left];
      now rewrite <- E.
  - right. right. exact H.
Qed.

Lemma col_min_attained (ax : axis) (u : rvec) (rest : rarray) :
  exists w, In w (u :: rest) /\
            get ax w = get ax (fold_left (v3map2 Rmin) rest u).
Proof.
  rewrite fold_left_get.
  pose proof (fold_left_Rmin_in (map (get ax) rest) (get ax u)) as H.
  change (get ax u :: map (get ax) rest) with (map (get ax) (u :: rest)) in H.
  apply in_map_iff in H. destruct H as [w [E Hw]]. now exists w.
Qed.

Lemma col_max_attained (ax : axis) (u : rvec) (rest : rarray) :
  exists w, In w (u :: rest) /\
            get ax w = get ax (fold_left (v3map2 Rmax) rest u).
Proof.
  rewrite fold_left_get.
  pose proof (fold_left_Rmax_in (map (get ax) rest) (get ax u)) as H.
  change (get ax u :: map (get ax) rest) with (map (get ax) (u :: rest)) in H.
  apply in_map_iff in H. destruct H as [w [E Hw]]. now exists w.
Qed.

(** X3: under exact arithmetic, min-max normalization of a non-empty finite
    buffer uses the whole range: on every axis some vertex is mapped to 0,
    and on every axis on which two vertices differ some vertex is mapped
    to 1. *)
Theorem normalize_minmax_reaches_bounds (v : rarray) :
  v <> [] ->
  exists nz m,
    normalize_minmax (Farr v) = Ok (Farr nz, m) /\
    forall ax,
      (exists w, In w nz /\ get ax w = 0) /\
      ((exists w1 w2, In w1 v /\ In w2 v /\ get ax w1 <> get ax w2) ->
       exists w, In w nz /\ get ax w = 1).
Proof.
  intros Hne. destruct v as [| u rest]; [congruence |].
  rewrite normalize_minmax_fin. do 2 eexists. split; [reflexivity |].
  intros ax. split.
  - destruct (col_min_attained ax u rest) as [w [Hw E]].
    eexists. split; [apply in_map; exact Hw |].
    rewrite !get_v3map2, E. unfold Rdiv, Rminus.
    rewrite Rplus_opp_r. apply Rmult_0_l.
  - intros [w1 [w2 [H1 [H2 Hd]]]].
    destruct (col_max_attained ax u rest) as [w [Hw E]].
    eexists. split; [apply in_map; exact Hw |].
    rewrite !get_v3map2, get_v3map, get_v3map2, E.
    pose proof (col_min_le ax u w1 rest H1). pose proof (col_max_ge ax u w1 rest H1).
    pose proof (col_min_le ax u w2 rest H2). pose proof (col_max_ge ax u w2 rest H2).
    unfold rfix_zero.
    destruct (Req_EM_T (get ax (fold_left (v3map2 Rmax) rest u) -
                        get ax (fold_left (v3map2 Rmin) rest u)) 0) as [Z | N].
    + exfalso. apply Hd. lra.
    + now apply Rinv_r.
Qed.

Lemma normalize_minmax_reaches_bounds_witness :
  exists nz m,
    normalize_minmax (Farr [(0, 5, 1); (2, 5, 3)]) = Ok (Farr nz, m) /\
    exists w, In w nz /\ get AxX w = 1.
Proof.
  destruct (normalize_minmax_reaches_bounds [(0, 5, 1); (2, 5, 3)])
    as [nz [m [H Hax]]].
  - discriminate.
  - exists nz, m. split; [exact H |].
    apply (proj2 (Hax AxX)).
    exists (0, 5, 1), (2, 5, 3). simpl. split; [now left |].
    split; [now right; left | lra].
Defined.

(** ** The centre of the unit-sphere normalization *)

Lemma Rsum_affine (a b : R) (l : list R) :
  Rsum (map (fun x => a * x + b) l) = a * Rsum l + INR (List.length l) * b.
Proof.
  induction l as [| x l IH].
  - simpl. ring.
  - cbn [map List.length Rsum fold_right]. fold (Rsum l).
    fold (Rsum (map (fun x => a * x + b) l)). rewrite IH, S_INR. ring.
Qed.

(** X4: The mean of the unit-sphere normalization of a non-empty finite buffer
    is the centre (0.5, 0.5, 0.5) of the unit cube: the centroid of the
    mesh is mapped there. *)
Theorem normalize_unit_sphere_centred (v : rarray) :
  v <> [] ->
  exists normalized m,
    normalize_unit_sphere (Farr v) = Ok (normalized, m) /\
    arr_mean0 normalized = (Fin (1 / 2), Fin (1 / 2), Fin (1 / 2)).
Proof.
  intros Hne. destruct v as [| u rest]; [congruence |].
  rewrite normalize_unit_sphere_fin. do 2 eexists. split; [reflexivity |].
  remember (u :: rest) as v eqn:Hv.
  set (c := rmean0 v).
  set (sh := map (fun w => v3map2 Rminus w c) v).
  set (md := rfix_zero (fold_left Rmax (map rnorm (tl sh)) (rnorm (hd u sh)))).
  assert (Hmd : md <> 0) by apply rfix_zero_neq0.
  assert (Hnz : map (v3map (fun x => (x / md + 1) / 2)) sh <> []).
  { unfold sh. rewrite Hv. discriminate. }
  rewrite arr_mean0_fin by exact Hnz.
  change (Fin (1 / 2), Fin (1 / 2), Fin (1 / 2)) with (Fvec (1 / 2, 1 / 2, 1 / 2)).
  f_equal. apply vec3_ext. intros ax. rewrite get_rmean0.
  unfold sh. rewrite !map_map.
  assert (E : map (fun w => get ax (v3map (fun x => (x / md + 1) / 2)
                                      (v3map2 Rminus w c))) v =
              map (fun x => / (2 * md) * x + (1 / 2 - get ax c / (2 * md)))
                (map (get ax) v)).
  { rewrite map_map. apply map_ext. intros w.
    rewrite get_v3map, get_v3map2. field. exact Hmd. }
  rewrite E. unfold Rmean. rewrite Rsum_affine, !length_map.
  assert (Hc : get ax c = Rsum (map (get ax) v) / INR (List.length v)).
  { unfold c. rewrite get_rmean0. unfold Rmean. now rewrite length_map. }
  rewrite Hc.
  assert (Hn : INR (List.length v) <> 0) by (apply INR_length_neq0; exact Hne).
  replace (get ax (1 / 2, 1 / 2, 1 / 2)) with (1 / 2) by now destruct ax.
  clearbody md.
  change (@List.length (vec3 R) v) with (@List.length rvec v).
  generalize dependent (Rsum (map (get ax) v)).
  generalize dependent (INR (@List.length rvec v)). intros n Hn S _.
  field. split; assumption.
Qed.

Lemma normalize_unit_sphere_centred_witness :
  exists normalized m,
    normalize_unit_sphere (Farr [(0, 0, 0); (1, 2, 3); (4, 1, - 2)]) =
      Ok (normalized, m) /\
    arr_mean0 normalized = (Fin (1 / 2), Fin (1 / 2), Fin (1 / 2)).
Proof.
  apply (normalize_unit_sphere_centred [(0, 0, 0); (1, 2, 3); (4, 1, - 2)]).
  discriminate.
Defined.

(** ** How far the reconstruction is from the original *)

(** One method on a finite buffer, given what its forward transform and
    its inverse return on finite arrays. *)
Lemma run_method_fin (c : Z) (normalize : normalize_fn)
  (denormalize : denormalize_fn) (v nz rc : rarray) (m : meta) (bins : Z) :
  bins <> 1%Z -> v <> [] ->
  normalize (Farr v) = Ok (Farr nz, m) ->
  denormalize (Farr (map (v3map (rcodec bins)) nz)) m = Ok (Farr rc) ->
  List.length rc = List.length v ->
  run_method c normalize denormalize (Farr v) bins =
  Ok (mkOutput (map (v3map (rquant bins)) nz) (Farr rc)
        (mkReport
           (Fvec (mse_axis AxX v rc, mse_axis AxY v rc, mse_axis AxZ v rc))
           (Fvec (mae_axis AxX v rc, mae_axis AxY v rc, mae_axis AxZ v rc))
           (Fin (Rmean [mse_axis AxX v rc; mse_axis AxY v rc;
                        mse_axis AxZ v rc]))
           (Fin (Rmean [mae_axis AxX v rc; mae_axis AxY v rc;
                        mae_axis AxZ v rc])))
        m).
Proof.
  intros Hb Hne Hn Hd Hlen. unfold run_method. rewrite Hn. cbn [bind fst snd].
  rewrite codec_fin by exact Hb. rewrite Hd. cbn [bind].
  rewrite compute_errors_fin by (auto; congruence). cbn [bind].
  now rewrite quantize_fin.
Qed.

(** On [[0,1]] the floor quantizer loses less than one step, downward. *)
Lemma rcodec_loss (bins : Z) (x : R) :
  (2 <= bins)%Z -> 0 <= x <= 1 ->
  0 <= x - rcodec bins x < 1 / IZR (bins - 1).
Proof.
  intros Hb Hx.
  destruct (round_trip_comp 0 bins x Hb Hx) as [d [E Hd]].
  rewrite quantize_comp_fin, dequantize_comp_fin in E by lia.
  injection E as <-. exact Hd.
Qed.

Lemma minmax_recon_bound (bins : Z) (x mn mx : R) :
  (2 <= bins)%Z -> mn <= x <= mx ->
  0 <= x - (rcodec bins ((x - mn) / rfix_zero (mx - mn)) * (mx - mn) + mn)
    <= (mx - mn) / IZR (bins - 1).
Proof.
  intros Hb Hx.
  pose proof (minmax_comp_range x mn mx Hx) as Hn.
  pose proof (rcodec_loss bins _ Hb Hn) as Hl.
  assert (HB : 0 < IZR (bins - 1)) by (apply IZR_lt; lia).
  revert Hn Hl. unfold rfix_zero.
  destruct (Req_EM_T (mx - mn) 0) as [E | N]; intros Hn Hl.
  - rewrite E. unfold Rdiv. rewrite Rmult_0_l, Rmult_0_r. lra.
  - set (n := (x - mn) / (mx - mn)) in *.
    assert (Hx' : x - mn = n * (mx - mn)) by (unfold n; field; exact N).
    replace (x - (rcodec bins n * (mx - mn) + mn))
      with ((n - rcodec bins n) * (mx - mn)) by lra.
    replace ((mx - mn) / IZR (bins - 1))
      with (1 / IZR (bins - 1) * (mx - mn)) by (field; lra).
    split.
    + apply Rmult_le_pos; lra.
    + apply Rmult_le_compat_r; lra.
Qed.

Lemma sphere_recon_bound (bins : Z) (x c m : R) :
  (2 <= bins)%Z -> Rabs (x - c) <= m ->
  0 <= x - ((rcodec bins (((x - c) / rfix_zero m + 1) / 2) * 2 - 1)
            * rfix_zero m + c)
    <= 2 * rfix_zero m / IZR (bins - 1).
Proof.
  intros Hb Hx.
  pose proof (sphere_comp_range (x - c) m Hx) as Hn.
  pose proof (rcodec_loss bins _ Hb Hn) as Hl.
  assert (HB : 0 < IZR (bins - 1)) by (apply IZR_lt; lia).
  assert (Hm : 0 < rfix_zero m).
  { pose proof (Rabs_pos (x - c)). unfold rfix_zero.
    destruct (Req_EM_T m 0); lra. }
  set (md := rfix_zero m) in *.
  set (n := ((x - c) / md + 1) / 2) in *.
  assert (Hx' : x - c = (2 * n - 1) * md) by (unfold n; field; lra).
  replace (x - ((rcodec bins n * 2 - 1) * md + c))
    with ((n - rcodec bins n) * (2 * md)) by lra.
  replace (2 * md / IZR (bins - 1))
    with (1 / IZR (bins - 1) * (2 * md)) by (field; lra).
  split.
  - apply Rmult_le_pos; lra.
  - apply Rmult_le_compat_r; lra.
Qed.

Lemma Forall2_map_right {A B : Type} (P : A -> B -> Prop) (f : A -> B)
  (l : list A) :
  (forall x, In x l -> P x (f x)) -> Forall2 P l (map f l).
Proof.
  induction l as [| x l IH]; intros H; simpl; constructor.
  - apply H. now left.
  - apply IH. intros y Hy. apply H. now right.
Qed.

(** What the min-max method returns on a finite buffer, with the
    reconstruction written coordinate by coordinate. *)
Lemma run_method_minmax_fin (c : Z) (u : rvec) (rest : rarray) (bins : Z) :
  bins <> 1%Z ->
  let v := u :: rest in
  let mn := fold_left (v3map2 Rmin) rest u in
  let mx := fold_left (v3map2 Rmax) rest u in
  let dn := v3map rfix_zero (v3map2 Rminus mx mn) in
  let recon w :=
    v3map2 Rplus
      (v3map2 Rmult
         (v3map (rcodec bins) (v3map2 Rdiv (v3map2 Rminus w mn) dn))
         (v3map2 Rminus mx mn))
      mn in
  exists out,
    run_method c normalize_minmax denormalize_minmax (Farr v) bins = Ok out /\
    out_recon out = Farr (map recon v) /\
    out_meta out = MinMaxMeta (Fvec mn) (Fvec mx) /\
    (forall ax,
        get ax (mae_per_axis (out_errors out)) =
          Fin (mae_axis ax v (map recon v)) /\
        get ax (mse_per_axis (out_errors out)) =
          Fin (mse_axis ax v (map recon v))).
Proof.
  intros Hb v mn mx dn recon. eexists. split.
  - apply (run_method_fin c normalize_minmax denormalize_minmax v
             (map (fun w => v3map2 Rdiv (v3map2 Rminus w mn) dn) v)
             (map recon v) (MinMaxMeta (Fvec mn) (Fvec mx)) bins Hb).
    + discriminate.
    + apply normalize_minmax_fin.
    + rewrite denormalize_minmax_fin. now rewrite !map_map.
    + apply length_map.
  - cbn [out_recon out_meta out_errors mae_per_axis mse_per_axis].
    repeat split; now destruct ax.
Qed.

Lemma run_method_unit_sphere_fin (c : Z) (u : rvec) (rest : rarray)
  (bins : Z) :
  bins <> 1%Z ->
  let v := u :: rest in
  let ctr := rmean0 v in
  let sh := map (fun w => v3map2 Rminus w ctr) v in
  let m := fold_left Rmax (map rnorm (tl sh)) (rnorm (hd u sh)) in
  let md := rfix_zero m in
  let recon w :=
    v3map2 Rplus
      (v3map (fun x => (x * 2 - 1) * md)
         (v3map (rcodec bins)
            (v3map (fun x => (x / md + 1) / 2) (v3map2 Rminus w ctr))))
      ctr in
  exists out,
    run_method c normalize_unit_sphere denormalize_unit_sphere (Farr v) bins
      = Ok out /\
    out_recon out = Farr (map recon v) /\
    out_meta out = SphereMeta (Fvec ctr) (Fin md) /\
    (forall ax,
        get ax (mae_per_axis (out_errors out)) =
          Fin (mae_axis ax v (map recon v)) /\
        get ax (mse_per_axis (out_errors out)) =
          Fin (mse_axis ax v (map recon v))).
Proof.
  intros Hb v ctr sh m md recon. eexists. split.
  - apply (run_method_fin c normalize_unit_sphere denormalize_unit_sphere v
             (map (v3map (fun x => (x / md + 1) / 2)) sh)
             (map recon v) (SphereMeta (Fvec ctr) (Fin md)) bins Hb).
    + discriminate.
    + apply normalize_unit_sphere_fin.
    + rewrite denormalize_unit_sphere_fin. unfold sh, recon.
      now rewrite !map_map.
    + apply length_map.
  - cbn [out_recon out_meta out_errors mae_per_axis mse_per_axis].
    repeat split; now destruct ax.
Qed.

Lemma diff_col_map (ax : axis) (f : rvec -> rvec) (v : rarray) :
  diff_col ax v (map f v) = map (fun w => get ax w - get ax (f w)) v.
Proof.
  unfold diff_col. induction v as [| w v IH]; simpl; [reflexivity |].
  now rewrite IH.
Qed.

(** Coordinates that are each at most [b] below the original, and never
    above, give a mean absolute error of at most [b] and a mean squared
    error of at most [b * b]. *)
Lemma errors_bounded (ax : axis) (f : rvec -> rvec) (v : rarray) (b : R) :
  v <> [] ->
  (forall w, In w v -> 0 <= get ax w - get ax (f w) <= b) ->
  0 <= mae_axis ax v (map f v) <= b /\
  0 <= mse_axis ax v (map f v) <= b * b.
Proof.
  intros Hne H. unfold mae_axis, mse_axis. rewrite diff_col_map, !map_map.
  split; apply Rmean_bounds;
    try (intros E; apply map_eq_nil in E; contradiction);
    apply Forall_forall; intros y Hy; apply in_map_iff in Hy;
    destruct Hy as [w [<- Hw]]; specialize (H w Hw).
  - rewrite Rabs_pos_eq; lra.
  - nra.
Qed.

(** X18: The min-max method with bins >= 2 on a non-empty finite buffer: every
    reconstructed coordinate is at most the original one and falls short
    of it by at most the extent of its axis, vmax - vmin, divided by
    bins - 1. *)
Theorem minmax_reconstruction_bound (c : Z) (v : rarray) (bins : Z) :
  v <> [] -> (2 <= bins)%Z ->
  exists out rc mn mx,
    run_method c normalize_minmax denormalize_minmax (Farr v) bins = Ok out /\
    out_recon out = Farr rc /\
    out_meta out = MinMaxMeta (Fvec mn) (Fvec mx) /\
    Forall2 (fun w r => forall ax,
                 0 <= get ax w - get ax r <=
                 (get ax mx - get ax mn) / IZR (bins - 1)) v rc.
Proof.
  intros Hne Hb. destruct v as [| u rest]; [congruence |].
  destruct (run_method_minmax_fin c u rest bins) as [out [Hr [Hc [Hm _]]]];
    [lia |].
  do 4 eexists. split; [exact Hr |]. split; [exact Hc |].
  split; [exact Hm |].
  apply Forall2_map_right. intros w Hw ax.
  rewrite !get_v3map2, !get_v3map, !get_v3map2, get_v3map, get_v3map2.
  apply minmax_recon_bound; [exact Hb |]. split.
  - now apply col_min_le.
  - now apply col_max_ge.
Qed.

Lemma minmax_reconstruction_bound_witness :
  exists out rc mn mx,
    run_method 0 normalize_minmax denormalize_minmax
      (Farr [(0, 0, 0); (1, 2, 3); (4, 1, - 2)]) 1024 = Ok out /\
    out_recon out = Farr rc /\
    out_meta out = MinMaxMeta (Fvec mn) (Fvec mx) /\
    Forall2 (fun w r => forall ax,
                 0 <= get ax w - get ax r <=
                 (get ax mx - get ax mn) / IZR (1024 - 1))
      [(0, 0, 0); (1, 2, 3); (4, 1, - 2)] rc.
Proof.
  apply (minmax_reconstruction_bound 0 [(0, 0, 0); (1, 2, 3); (4, 1, - 2)] 1024).
  - discriminate.
  - lia.
Defined.

Lemma sphere_radius_bound (u w : rvec) (rest : rarray) (ctr : rvec)
  (ax : axis) :
  In w (u :: rest) ->
  let sh := map (fun w => v3map2 Rminus w ctr) (u :: rest) in
  Rabs (get ax w - get ax ctr) <=
  fold_left Rmax (map rnorm (tl sh)) (rnorm (hd u sh)).
Proof.
  intros Hw sh.
  apply Rle_trans with (rnorm (v3map2 Rminus w ctr)).
  - rewrite <- (get_v3map2 Rminus ax w ctr). apply Rabs_le_rnorm.
  - apply fold_left_Rmax_ge.
    change (In (rnorm (v3map2 Rminus w ctr)) (map rnorm sh)).
    apply in_map. unfold sh.
    now apply (in_map (fun w => v3map2 Rminus w ctr)).
Qed.

(** X19: The unit-sphere method with bins >= 2 on a non-empty finite buffer:
    every reconstructed coordinate is at most the original one and falls
    short of it by at most 2 * maxd / (bins - 1), where maxd > 0 is the
    radius kept in the metadata. *)
Theorem unit_sphere_reconstruction_bound (c : Z) (v : rarray) (bins : Z) :
  v <> [] -> (2 <= bins)%Z ->
  exists out rc ctr md,
    run_method c normalize_unit_sphere denormalize_unit_sphere (Farr v) bins
      = Ok out /\
    out_recon out = Farr rc /\
    out_meta out = SphereMeta (Fvec ctr) (Fin md) /\
    0 < md /\
    Forall2 (fun w r => forall ax,
                 0 <= get ax w - get ax r <= 2 * md / IZR (bins - 1)) v rc.
Proof.
  intros Hne Hb. destruct v as [| u rest]; [congruence |].
  destruct (run_method_unit_sphere_fin c u rest bins)
    as [out [Hr [Hc [Hm _]]]]; [lia |].
  do 4 eexists. split; [exact Hr |]. split; [exact Hc |].
  split; [exact Hm |]. split.
  - pose proof (sphere_radius_bound u u rest (rmean0 (u :: rest)) AxX
                  (or_introl eq_refl)) as H.
    pose proof (Rabs_pos (get AxX u - get AxX (rmean0 (u :: rest)))) as Hp.
    cbv zeta in H. unfold rfix_zero.
    destruct (Req_EM_T _ 0); lra.
  - apply Forall2_map_right. intros w Hw ax.
    rewrite get_v3map2, !get_v3map, get_v3map2.
    apply sphere_recon_bound; [exact Hb |].
    now apply sphere_radius_bound.
Qed.

Lemma unit_sphere_reconstruction_bound_witness :
  exists out rc ctr md,
    run_method 0 normalize_unit_sphere denormalize_unit_sphere
      (Farr [(0, 0, 0); (1, 2, 3); (4, 1, - 2)]) 1024 = Ok out /\
    out_recon out = Farr rc /\
    out_meta out = SphereMeta (Fvec ctr) (Fin md) /\
    0 < md /\
    Forall2 (fun w r => forall ax,
                 0 <= get ax w - get ax r <= 2 * md / IZR (1024 - 1))
      [(0, 0, 0); (1, 2, 3); (4, 1, - 2)] rc.
Proof.
  apply (unit_sphere_reconstruction_bound 0
           [(0, 0, 0); (1, 2, 3); (4, 1, - 2)] 1024).
  - discriminate.
  - lia.
Defined.

(** X20: The errors both methods report with bins >= 2 on a non-empty finite
    buffer are bounded by the quantization step: on each axis the mean
    absolute error is at most the step and the mean squared error at most
    its square, the step being (vmax - vmin) / (bins - 1) for min-max and
    2 * maxd / (bins - 1) for the unit sphere. *)
Theorem reported_errors_within_step (c : Z) (v : rarray) (bins : Z) :
  v <> [] -> (2 <= bins)%Z ->
  (exists out mn mx,
      run_method c normalize_minmax denormalize_minmax (Farr v) bins = Ok out /\
      out_meta out = MinMaxMeta (Fvec mn) (Fvec mx) /\
      forall ax, exists a s,
        get ax (mae_per_axis (out_errors out)) = Fin a /\
        get ax (mse_per_axis (out_errors out)) = Fin s /\
        0 <= a <= (get ax mx - get ax mn) / IZR (bins - 1) /\
        0 <= s <= ((get ax mx - get ax mn) / IZR (bins - 1)) *
                  ((get ax mx - get ax mn) / IZR (bins - 1))) /\
  (exists out ctr md,
      run_method c normalize_unit_sphere denormalize_unit_sphere (Farr v) bins
        = Ok out /\
      out_meta out = SphereMeta (Fvec ctr) (Fin md) /\
      forall ax, exists a s,
        get ax (mae_per_axis (out_errors out)) = Fin a /\
        get ax (mse_per_axis (out_errors out)) = Fin s /\
        0 <= a <= 2 * md / IZR (bins - 1) /\
        0 <= s <= (2 * md / IZR (bins - 1)) * (2 * md / IZR (bins - 1))).
Proof.
  intros Hne Hb. destruct v as [| u rest]; [congruence |]. split.
  - destruct (run_method_minmax_fin c u rest bins) as [out [Hr [_ [Hm He]]]];
      [lia |].
    do 3 eexists. split; [exact Hr |]. split; [exact Hm |].
    intros ax. destruct (He ax) as [Ha Hs]. do 2 eexists.
    split; [exact Ha |]. split; [exact Hs |].
    apply errors_bounded; [discriminate |]. intros w Hw.
    rewrite !get_v3map2, !get_v3map, !get_v3map2, get_v3map, get_v3map2.
    apply minmax_recon_bound; [exact Hb |]. split.
    + now apply col_min_le.
    + now apply col_max_ge.
  - destruct (run_method_unit_sphere_fin c u rest bins)
      as [out [Hr [_ [Hm He]]]]; [lia |].
    do 3 eexists. split; [exact Hr |]. split; [exact Hm |].
    intros ax. destruct (He ax) as [Ha Hs]. do 2 eexists.
    split; [exact Ha |]. split; [exact Hs |].
    apply errors_bounded; [discriminate |]. intros w Hw.
    rewrite get_v3map2, !get_v3map, get_v3map2.
    apply sphere_recon_bound; [exact Hb |].
    now apply sphere_radius_bound.
Qed.

Lemma reported_errors_within_step_witness :
  exists out mn mx,
    run_method 0 normalize_minmax denormalize_minmax
      (Farr [(0, 0, 0); (1, 2, 3); (4, 1, - 2)]) 1024 = Ok out /\
    out_meta out = MinMaxMeta (Fvec mn) (Fvec mx) /\
    forall ax, exists a s,
      get ax (mae_per_axis (out_errors out)) = Fin a /\
      get ax (mse_per_axis (out_errors out)) = Fin s /\
      0 <= a <= (get ax mx - get ax mn) / IZR (1024 - 1) /\
      0 <= s <= ((get ax mx - get ax mn) / IZR (1024 - 1)) *
                ((get ax mx - get ax mn) / IZR (1024 - 1)).
Proof.
  apply (proj1 (reported_errors_within_step 0
                  [(0, 0, 0); (1, 2, 3); (4, 1, - 2)] 1024
                  ltac:(discriminate) ltac:(lia))).
Defined.

(** ** Vertices on the bounding box *)

Lemma Fvec_inj (a b : rvec) : Fvec a = Fvec b -> a = b.
Proof.
  destruct a as [[x y] z], b as [[x' y'] z']. simpl. congruence.
Qed.

Lemma rcodec_zero (bins : Z) : (2 <= bins)%Z -> rcodec bins 0 = 0.
Proof.
  intros Hb. unfold rcodec. rewrite rquant_low by (assumption || lra).
  unfold Rdiv. apply Rmult_0_l.
Qed.

Lemma rcodec_one (bins : Z) : (2 <= bins)%Z -> rcodec bins 1 = 1.
Proof.
  intros Hb. unfold rcodec. rewrite rquant_high by (assumption || lra).
  apply Rinv_r. intros E. apply eq_IZR in E. lia.
Qed.

Lemma minmax_recon_extreme (bins : Z) (x mn mx : R) :
  (2 <= bins)%Z -> x = mn \/ x = mx ->
  rcodec bins ((x - mn) / rfix_zero (mx - mn)) * (mx - mn) + mn = x.
Proof.
  intros Hb Hx. unfold rfix_zero.
  destruct (Req_EM_T (mx - mn) 0) as [E | N].
  - rewrite E. destruct Hx; lra.
  - destruct Hx as [-> | ->].
    + replace ((mn - mn) / (mx - mn)) with 0 by (field; exact N).
      rewrite rcodec_zero by exact Hb. lra.
    + replace ((mx - mn) / (mx - mn)) with 1 by (field; exact N).
      rewrite rcodec_one by exact Hb. lra.
Qed.

Lemma mse_axis_same (ax : axis) (v : rarray) : v <> [] -> mse_axis ax v v = 0.
Proof.
  intros Hne. apply mse_axis_zero_iff; [reflexivity | exact Hne |].
  now apply (proj2 (diff_col_zero_iff v v eq_refl)).
Qed.

Lemma mae_axis_same (ax : axis) (v : rarray) : v <> [] -> mae_axis ax v v = 0.
Proof.
  intros Hne. apply mae_axis_zero_iff; [reflexivity | exact Hne |].
  now apply (proj2 (diff_col_zero_iff v v eq_refl)).
Qed.

(** X21: The min-max method with bins >= 2 is exact on a buffer whose vertices
    all lie on the corners of its bounding box: when every coordinate of
    every vertex equals the minimum or the maximum of its axis, the
    reconstruction is the original buffer and mse = mae = 0. *)
Theorem minmax_exact_on_box_corners (c : Z) (v : rarray) (mn mx : rvec)
  (bins : Z) :
  (2 <= bins)%Z ->
  arr_min0 (Farr v) = Ok (Fvec mn) -> arr_max0 (Farr v) = Ok (Fvec mx) ->
  (forall w, In w v -> forall ax,
       get ax w = get ax mn \/ get ax w = get ax mx) ->
  exists out,
    run_method c normalize_minmax denormalize_minmax (Farr v) bins = Ok out /\
    out_recon out = Farr v /\
    mse (out_errors out) = Fin 0 /\ mae (out_errors out) = Fin 0.
Proof.
  intros Hb Hmin Hmax Hv. destruct v as [| u rest]; [discriminate |].
  rewrite arr_min0_fin in Hmin. rewrite arr_max0_fin in Hmax.
  injection Hmin as Hmin. injection Hmax as Hmax.
  apply Fvec_inj in Hmin. apply Fvec_inj in Hmax.
  eexists. split.
  - eapply run_method_fin with (rc := u :: rest);
      [lia | discriminate | apply normalize_minmax_fin | | reflexivity].
    rewrite denormalize_minmax_fin. f_equal. f_equal.
    rewrite !map_map. apply map_fixes. intros w Hw.
    apply vec3_ext. intros ax.
    rewrite !get_v3map2, !get_v3map, !get_v3map2, get_v3map, get_v3map2.
    apply minmax_recon_extreme; [exact Hb |].
    rewrite Hmin, Hmax. now apply Hv.
  - cbn [out_recon out_errors mse mae].
    rewrite !mse_axis_same, !mae_axis_same by discriminate.
    split; [reflexivity |].
    split; f_equal; unfold Rmean; simpl; field.
Qed.

(** Evaluates [Rmin] and [Rmax] of numerals, innermost first. *)
Ltac eval_min_max :=
  repeat match goal with
         | |- context [Rmin ?a ?b] =>
             first [ rewrite (Rmin_left a b) by lra
                   | rewrite (Rmin_right a b) by lra ]
         | |- context [Rmax ?a ?b] =>
             first [ rewrite (Rmax_left a b) by lra
                   | rewrite (Rmax_right a b) by lra ]
         end.

Lemma minmax_exact_on_box_corners_witness :
  exists out,
    run_method 0 normalize_minmax denormalize_minmax
      (Farr [(0, 0, 0); (1, 0, 0); (0, 1, 0); (1, 1, 0);
             (0, 0, 1); (1, 0, 1); (0, 1, 1); (1, 1, 1)]) 2 = Ok out /\
    out_recon out =
      Farr [(0, 0, 0); (1, 0, 0); (0, 1, 0); (1, 1, 0);
            (0, 0, 1); (1, 0, 1); (0, 1, 1); (1, 1, 1)] /\
    mse (out_errors out) = Fin 0 /\ mae (out_errors out) = Fin 0.
Proof.
  apply (minmax_exact_on_box_corners 0
           [(0, 0, 0); (1, 0, 0); (0, 1, 0); (1, 1, 0);
            (0, 0, 1); (1, 0, 1); (0, 1, 1); (1, 1, 1)]
           (0, 0, 0) (1, 1, 1) 2).
  - lia.
  - rewrite arr_min0_fin. cbn [fold_left v3map2]. now eval_min_max.
  - rewrite arr_max0_fin. cbn [fold_left v3map2]. now eval_min_max.
  - intros w Hw ax.
    repeat (destruct Hw as [<- | Hw]; [destruct ax; simpl; auto |]).
    destruct Hw.
Defined.

(** ** A single vertex against a buffer *)

Lemma combine_repeat (a : farray) (w : fvec) :
  map (fun p => v3map2 fsub (fst p) (snd p))
    (combine a (repeat w (List.length a))) =
  arr_row fsub a w.
Proof.
  unfold arr_row. induction a as [| u a IH]; simpl; [reflexivity |].
  now rewrite IH.
Qed.

(** X13: A reconstructed buffer of exactly one vertex is stretched over the
    original: the report is the one for that vertex repeated N times. *)
Theorem compute_errors_single_vertex (o : farray) (w : fvec) :
  compute_errors o [w] = compute_errors o (repeat w (List.length o)).
Proof.
  unfold compute_errors. rewrite broadcast2_stretch_right.
  rewrite broadcast2_same_length by now rewrite repeat_length.
  now rewrite combine_repeat.
Qed.
